(** * LectureForge frontend: status reconciliation, polling, URLs, navigation

    A shallow embedding of the client-side logic of the LectureForge
    frontend:

    - [frontend/lib/api.ts]: the wire types [JobState], [SlideState],
      [SlideProgress], [JobStatus]; the URL helpers [getApiBaseUrl],
      [joinUrl], [getFileUrl], [getWebSocketUrl]; [parseError] and
      [getJobStatus];
    - [frontend/hooks/useJobStatus.ts]: the [refetchInterval] callback;
    - [frontend/app/processing/[jobId]/page.tsx]: the merged [status]
      object, the completion flags, the job-not-found retry effect and the
      choice of the rendered view;
    - the slide viewer component: [goToPrevious] and [goToNext].

    JavaScript values are modelled by [jsval]; a JavaScript object is a
    finite map from property names to values.  Strings are sequences of
    one-byte characters; every string the code compares against is ASCII. *)

From Stdlib Require Import ZArith Ascii String DecimalString.
From stdpp Require Import base option list strings gmap fin_maps.

Local Open Scope Z_scope.
Local Open Scope string_scope.

(** ** JavaScript values *)

Module JS.

(** Numbers are the integers the wire format carries (JSON has no NaN and
    the status contract uses whole numbers). *)
#[warnings="-register-all"]
Inductive jsval : Type :=
  | JUndefined
  | JNull
  | JBool (b : bool)
  | JNum (n : Z)
  | JStr (s : string)
  | JArr (items : list jsval)
  | JObj (props : gmap string jsval).

(** ToBoolean: [undefined], [null], [false], [0] and [''] are falsy;
    every array and object is truthy, the empty ones included. *)
Definition truthy (v : jsval) : bool :=
  match v with
  | JUndefined | JNull => false
  | JBool b => b
  | JNum n => negb (n =? 0)%Z
  | JStr s => negb (String.eqb s "")
  | JArr _ | JObj _ => true
  end.

(** [a || b] *)
Definition js_or (a b : jsval) : jsval := if truthy a then a else b.

(** [o.k] on an object: a missing property reads as [undefined]. *)
Definition prop (o : gmap string jsval) (k : string) : jsval :=
  default JUndefined (o !! k).

(** [v?.k] on an arbitrary value.  Neither [detail], [message] nor any
    status field is a built-in property of a primitive or of an array. *)
Definition opt_prop (v : jsval) (k : string) : jsval :=
  match v with
  | JObj o => prop o k
  | _ => JUndefined
  end.

(** [x?.k] where [x : T | null] is a hook result. *)
Definition opt_chain (x : option (gmap string jsval)) (k : string) : jsval :=
  match x with
  | Some o => prop o k
  | None => JUndefined
  end.

(** [{...((x as object) || {})}] followed by more properties: the spread of
    a nullable object. *)
Definition spread (x : option (gmap string jsval)) : gmap string jsval :=
  default ∅ x.

(** [a === b] against a string literal. *)
Definition is_str (v : jsval) (s : string) : bool :=
  match v with
  | JStr t => String.eqb t s
  | _ => false
  end.

End JS.
Import JS.

(** ** String methods *)

Module Str.

(** [s.startsWith(p)] *)
Fixpoint startsWith (s p : string) : bool :=
  match p, s with
  | EmptyString, _ => true
  | String _ _, EmptyString => false
  | String a p', String b s' => Ascii.eqb a b && startsWith s' p'
  end.

(** [s.slice(n)] for [0 <= n] *)
Fixpoint slice (s : string) (n : nat) : string :=
  match n, s with
  | O, _ => s
  | S n', String _ s' => slice s' n'
  | S _, EmptyString => EmptyString
  end.

(** [s.indexOf(p)]; [None] stands for [-1]. *)
Fixpoint indexOf (s p : string) : option nat :=
  if startsWith s p then Some O
  else match s with
       | EmptyString => None
       | String _ s' => S <$> indexOf s' p
       end.

(** [s.includes(p)] *)
Definition includes (s p : string) : bool := bool_decide (is_Some (indexOf s p)).

(** [s.replace(/\\/g, '/')] *)
Fixpoint replace_backslashes (s : string) : string :=
  match s with
  | EmptyString => EmptyString
  | String c s' =>
      String (if Ascii.eqb c "\"%char then "/"%char else c) (replace_backslashes s')
  end.

(** [s.replace(/\/$/, '')]: drop one slash at the very end. *)
Fixpoint strip_trailing_slash (s : string) : string :=
  match s with
  | EmptyString => EmptyString
  | String c EmptyString => if Ascii.eqb c "/"%char then EmptyString else s
  | String c s' => String c (strip_trailing_slash s')
  end.

Definition lower_char (c : ascii) : ascii :=
  let n := nat_of_ascii c in
  if (65 <=? n)%nat && (n <=? 90)%nat then ascii_of_nat (n + 32) else c.

(** [s.toLowerCase()]: the letters A-Z are the only characters whose
    lower-case form occurs in the pattern searched for afterwards. *)
Fixpoint toLowerCase (s : string) : string :=
  match s with
  | EmptyString => EmptyString
  | String c s' => String (lower_char c) (toLowerCase s')
  end.

End Str.

(** ** Conversion to string *)

Module Convert.

(** The text of a whole number, as a template literal or [String(n)]
    gives it: the decimal numeral, with a minus sign if negative (the form
    JavaScript uses below 10^21 in magnitude). *)
Definition number_text (n : Z) : string :=
  DecimalString.NilZero.string_of_int (Z.to_int n).

(** [parts.join(sep)] *)
Fixpoint join (sep : string) (parts : list string) : string :=
  match parts with
  | [] => ""
  | [p] => p
  | p :: rest => p ++ sep ++ join sep rest
  end.

(** ToString.  An array is its elements joined by commas, [null] and
    [undefined] elements giving the empty string; a plain object is
    ['[object Object]']. *)
Fixpoint to_string (v : jsval) : string :=
  match v with
  | JUndefined => "undefined"
  | JNull => "null"
  | JBool true => "true"
  | JBool false => "false"
  | JNum n => number_text n
  | JStr s => s
  | JArr items =>
      join ","
        (map (λ item, match item with
                      | JUndefined | JNull => ""
                      | _ => to_string item
                      end) items)
  | JObj _ => "[object Object]"
  end.

End Convert.

(** ** [frontend/lib/api.ts] *)

Module Api.

(** [export type JobState] *)
Inductive JobState := Pending | Processing | Completed | Failed | Cancelled.

Definition JobState_str (s : JobState) : string :=
  match s with
  | Pending => "pending"
  | Processing => "processing"
  | Completed => "completed"
  | Failed => "failed"
  | Cancelled => "cancelled"
  end.

Definition all_JobState : list JobState :=
  [Pending; Processing; Completed; Failed; Cancelled].

(** [export type SlideState] *)
Inductive SlideState := SPending | SProcessing | SCompleted | SFailed.

Definition SlideState_str (s : SlideState) : string :=
  match s with
  | SPending => "pending"
  | SProcessing => "processing"
  | SCompleted => "completed"
  | SFailed => "failed"
  end.

Definition all_SlideState : list SlideState :=
  [SPending; SProcessing; SCompleted; SFailed].

(** [process.env]: the one variable the module reads. *)
Record ProcessEnv := { NEXT_PUBLIC_API_URL : option string }.

Definition defaultBaseUrl : string := "http://localhost:8000".

Definition getApiBaseUrl (env : ProcessEnv) : string :=
  let base :=
    match NEXT_PUBLIC_API_URL env with
    | Some u => if String.eqb u "" then defaultBaseUrl else u
    | None => defaultBaseUrl
    end in
  Str.strip_trailing_slash base.

Definition joinUrl (base path : string) : string :=
  if String.eqb path "" then base
  else if Str.startsWith path "/" then base ++ path
  else base ++ "/" ++ path.

(** [path?: string | null]: [None] covers both [null] and [undefined]. *)
Definition getFileUrl (env : ProcessEnv) (path : option string) : string :=
  match path with
  | None => ""
  | Some path =>
      if String.eqb path "" then ""
      else if Str.startsWith path "http://" || Str.startsWith path "https://" then path
      else
        let normalized := Str.replace_backslashes path in
        let dataIndex := Str.indexOf normalized "/data/" in
        let storageIndex := Str.indexOf normalized "/storage/" in
        let relativePath :=
          match dataIndex with
          | Some i => Str.slice normalized i
          | None =>
              match storageIndex with
              | Some j => Str.slice normalized j
              | None =>
                  if negb (Str.startsWith normalized "/") then "/" ++ normalized
                  else normalized
              end
          end in
        joinUrl (getApiBaseUrl env) relativePath
  end.

(** Every function of the module can read [process.env]; this one is
    handed it like the others and makes no use of it. *)
Definition getWebSocketUrl (env : ProcessEnv) (jobId : string) : string :=
  "ws://localhost:8000/ws/jobs/" ++ jobId.

End Api.

(** *** The wire types as run-time shapes

    A TypeScript interface is erased at run time; what it says about an
    object received from the server is recorded here as a checker, one
    conjunct per declared member, in declaration order. *)

Module Wire.
Import Api.

Definition is_string (v : jsval) : bool :=
  match v with JStr _ => true | _ => false end.

Definition is_number (v : jsval) : bool :=
  match v with JNum _ => true | _ => false end.

Definition is_JobState (v : jsval) : bool :=
  match v with
  | JStr s => bool_decide (s ∈ JobState_str <$> all_JobState)
  | _ => false
  end.

Definition is_SlideState (v : jsval) : bool :=
  match v with
  | JStr s => bool_decide (s ∈ SlideState_str <$> all_SlideState)
  | _ => false
  end.

(** [T | null] *)
Definition nullable (p : jsval → bool) (v : jsval) : bool :=
  match v with JNull => true | _ => p v end.

(** [k: T] *)
Definition required (p : jsval → bool) (o : gmap string jsval) (k : string) : bool :=
  match o !! k with Some v => p v | None => false end.

(** [k?: T] *)
Definition optional (p : jsval → bool) (o : gmap string jsval) (k : string) : bool :=
  match o !! k with
  | None | Some JUndefined => true
  | Some v => p v
  end.

(** [export interface SlideProgress] *)
Definition SlideProgress_fields : list string :=
  ["slide_number"; "narration"; "mcq"; "video"; "error"].

Definition has_SlideProgress (v : jsval) : bool :=
  match v with
  | JObj o =>
      required is_number o "slide_number"
      && required is_SlideState o "narration"
      && required is_SlideState o "mcq"
      && required is_SlideState o "video"
      && optional (nullable is_string) o "error"
  | _ => false
  end.

Definition is_SlideProgress_array (v : jsval) : bool :=
  match v with
  | JArr items => forallb has_SlideProgress items
  | _ => false
  end.

(** [export interface JobStatus] *)
Definition JobStatus_fields : list string :=
  ["job_id"; "status"; "progress"; "current_slide"; "total_slides";
   "current_step"; "slides_progress"; "error"; "created_at"; "updated_at";
   "completed_at"].

Definition has_JobStatus (o : gmap string jsval) : bool :=
  required is_string o "job_id"
  && required is_JobState o "status"
  && required is_number o "progress"
  && optional (nullable is_number) o "current_slide"
  && optional (nullable is_number) o "total_slides"
  && optional (nullable is_string) o "current_step"
  && optional is_SlideProgress_array o "slides_progress"
  && optional (nullable is_string) o "error"
  && optional is_string o "created_at"
  && optional is_string o "updated_at"
  && optional (nullable is_string) o "completed_at".

End Wire.

(** *** [parseError] and [getJobStatus] *)

Module Fetch.
Import Api.

(** What the code looks at in a [Response]: the [ok] flag and what
    [response.json()] resolves to ([None]: the body is not JSON and the
    promise rejects). *)
Record Response := { ok : bool; body : option jsval }.

(** [Error message] is an [Error] object with that [message]; the other
    two are thrown by the platform. *)
Inductive exn :=
  | Error (message : string)
  | SyntaxError
  | NetworkError.

(** [new Error(x)]: the message is ToString of the argument, and the empty
    string inherited from the prototype when the argument is
    [undefined]. *)
Definition new_Error (x : jsval) : exn :=
  Error (match x with
         | JUndefined => ""
         | _ => Convert.to_string x
         end).

(** An awaited promise: resolved or rejected. *)
Inductive outcome (A : Type) :=
  | Return (a : A)
  | Throw (e : exn).
Arguments Return {A} a.
Arguments Throw {A} e.

#[global] Instance outcome_ret : MRet outcome := fun A a => Return a.

(** [await m] followed by the rest of the function: a rejection
    propagates. *)
#[global] Instance outcome_bind : MBind outcome := fun A B k m =>
  match m with
  | Return a => k a
  | Throw e => Throw e
  end.

(** [try { m } catch (error) { handler }] *)
Definition try_catch {A} (m : outcome A) (handler : exn → outcome A) : outcome A :=
  match m with
  | Return a => Return a
  | Throw e => handler e
  end.

Definition response_json (r : Response) : outcome jsval :=
  match body r with
  | Some v => Return v
  | None => Throw SyntaxError
  end.

(** The [try] block either returns from the function ([Some]) or falls
    through to the statement after the [catch] ([None]). *)
Definition parseError (response : Response) (fallback : string) : outcome jsval :=
  r ←
    try_catch
      (payload ← response_json response;
       if truthy (opt_prop payload "detail") then Return (Some (opt_prop payload "detail"))
       else if truthy (opt_prop payload "message") then Return (Some (opt_prop payload "message"))
       else Return None)
      (fun _ => Return (Some (JStr fallback)));
  match r with
  | Some v => Return v
  | None => Return (JStr fallback)
  end.

Definition status_path (jobId : string) : string :=
  "/api/v1/jobs/" ++ jobId ++ "/status".

(** [fetch] is the transport: it resolves to a response or rejects. *)
Definition getJobStatus (env : ProcessEnv) (fetch : string → outcome Response)
    (jobId : string) : outcome jsval :=
  response ← fetch (joinUrl (getApiBaseUrl env) (status_path jobId));
  if negb (ok response) then
    msg ← parseError response "Failed to fetch job status";
    Throw (new_Error msg)
  else response_json response.

End Fetch.

(** ** [frontend/hooks/useJobStatus.ts] *)

Module UseJobStatus.

(** The value of [refetchInterval]: [false] or a number of milliseconds. *)
Inductive interval := NoRefetch | Every (ms : Z).

(** [query.state.data] is [undefined] until the first fetch succeeds. *)
Definition refetchInterval (data : option (gmap string jsval)) : interval :=
  let status := opt_chain data "status" in
  if is_str status "Completed" || is_str status "Failed" then NoRefetch
  else Every 2000.

End UseJobStatus.

(** ** [frontend/app/processing/[jobId]/page.tsx] *)

Module Page.

Definition jobNotFoundRetryDelayMs : Z := 2000.
Definition jobNotFoundMaxRetries : Z := 3.

(** *** The merged status object

    [pollStatus] and [wsStatus] are [JobStatus | null].  An object literal
    assigns its members left to right, a later one replacing an earlier one
    of the same name. *)
Definition merged_slides_progress (pollStatus wsStatus : option (gmap string jsval)) : jsval :=
  js_or (js_or (opt_chain wsStatus "slides_progress") (opt_chain pollStatus "slides_progress"))
        (JArr []).

Definition merged_status (pollStatus wsStatus : option (gmap string jsval)) : jsval :=
  js_or (js_or (opt_chain wsStatus "status") (opt_chain pollStatus "status"))
        (JStr "Queued").

Definition merged_progress (pollStatus wsStatus : option (gmap string jsval)) : jsval :=
  js_or (js_or (opt_chain wsStatus "progress") (opt_chain pollStatus "progress"))
        (JNum 0).

Definition status (pollStatus wsStatus : option (gmap string jsval)) : gmap string jsval :=
  <["progress" := merged_progress pollStatus wsStatus]>
    (<["status" := merged_status pollStatus wsStatus]>
       (<["slides_progress" := merged_slides_progress pollStatus wsStatus]>
          (spread wsStatus ∪ spread pollStatus))).

Definition isCompleted (st : gmap string jsval) : bool :=
  is_str (prop st "status") "Completed" || is_str (prop st "status") "completed".

Definition isFailed (st : gmap string jsval) : bool :=
  is_str (prop st "status") "Failed" || is_str (prop st "status") "failed".

(** [{status?.progress || 0}], the number shown next to the bar. *)
Definition shown_progress (pollStatus wsStatus : option (gmap string jsval)) : jsval :=
  js_or (prop (status pollStatus wsStatus) "progress") (JNum 0).

(** *** The job-not-found retry effect *)

(** The three [useState] cells of the component. *)
Record RetryState := {
  wsRetry : Z;
  wsRetrying : bool;
  retryCount : Z;
}.

Definition initialState : RetryState :=
  {| wsRetry := 0; wsRetrying := false; retryCount := 0 |}.

(** [!wsError] for [wsError : string | null] *)
Definition no_error (wsError : option string) : bool :=
  match wsError with
  | None => true
  | Some e => String.eqb e ""
  end.

Definition is_job_not_found (wsError : option string) : bool :=
  match wsError with
  | None => false
  | Some e => Str.includes (Str.toLowerCase e) "job not found"
  end.

(** One run of the effect with dependencies [[wsError, wsRetry]]: the
    state after its [set...] calls and the delay of the timer it arms, if
    any. *)
Definition retry_effect (wsError : option string) (st : RetryState)
    : RetryState * option Z :=
  if no_error wsError then
    ({| wsRetry := wsRetry st; wsRetrying := false; retryCount := retryCount st |}, None)
  else if is_job_not_found wsError && (wsRetry st <? jobNotFoundMaxRetries)%Z then
    ({| wsRetry := wsRetry st;
        wsRetrying := true;
        retryCount := Z.min (retryCount st + 1) jobNotFoundMaxRetries |},
     Some jobNotFoundRetryDelayMs)
  else
    ({| wsRetry := wsRetry st; wsRetrying := false; retryCount := retryCount st |}, None).

(** The timer callback: [setWsRetry((prev) => prev + 1)]. *)
Definition timer_fired (st : RetryState) : RetryState :=
  {| wsRetry := wsRetry st + 1; wsRetrying := wsRetrying st; retryCount := retryCount st |}.

(** *** Which view the component returns *)

Inductive View :=
  | LoadingView
  | ErrorView (message : string)
  | FailedView
  | CompletedView
  | ProcessingView.

(** [error] is the poll hook's error; [error && ...] treats [''] as no
    error. *)
Definition render (isLoading : bool) (pollStatus wsStatus : option (gmap string jsval))
    (error : option string) (st : RetryState) : View :=
  let status := status pollStatus wsStatus in
  if isLoading && negb (bool_decide (is_Some pollStatus)) && negb (bool_decide (is_Some wsStatus))
  then LoadingView
  else
    match error with
    | Some e =>
        if negb (String.eqb e "") && negb (wsRetrying st) then ErrorView e
        else if isFailed status && negb (wsRetrying st) then FailedView
        else if isCompleted status then CompletedView
        else ProcessingView
    | None =>
        if isFailed status && negb (wsRetrying st) then FailedView
        else if isCompleted status then CompletedView
        else ProcessingView
    end.

(** *** The retry effect over the life of the component

    The early return of line 54: a render that takes it stops before the
    [useEffect] of line 74. *)
Definition returns_early (isLoading : bool)
    (pollStatus wsStatus : option (gmap string jsval)) : bool :=
  isLoading && negb (bool_decide (is_Some pollStatus)) && negb (bool_decide (is_Some wsStatus)).

(** The mounted component as far as the retry effect goes: the three state
    cells and the timeout that the last run of the effect armed and that
    has neither fired nor been cleared.  [armed] and [fired] keep count:
    the delay of every timeout armed so far, and how many have fired. *)
Record Component := {
  cells : RetryState;
  timer : option Z;
  armed : list Z;
  fired : nat;
}.

Definition mounted : Component :=
  {| cells := initialState; timer := None; armed := []; fired := 0 |}.

(** What happens to the component.  React runs the effect after a render
    whose [wsError] or [wsRetry] differs from the previous one, after the
    first render, and a second time after mounting under
    [reactStrictMode]; it runs the cleanup of the previous run before each
    new run and on unmounting.  When and how often is up to React and to
    the [useJobWebSocket] hook, so the events come in any order and
    number. *)
Inductive event :=
  | EffectRuns (isLoading : bool) (pollStatus wsStatus : option (gmap string jsval))
      (wsError : option string)
  | CleanupRuns
  | TimerFires.

(** [EffectRuns] is the effect of a render with these hook values: nothing
    if that render returned early; else the cleanup of the previous run
    ([clearTimeout]) and then the effect body, which reads the [wsRetry] of
    its render, taken to be the current one.  [CleanupRuns] is
    [clearTimeout] alone.  [TimerFires] is the callback of the pending
    timeout, if there is one. *)
Definition handle (c : Component) (ev : event) : Component :=
  match ev with
  | EffectRuns isLoading pollStatus wsStatus wsError =>
      if returns_early isLoading pollStatus wsStatus then c
      else
        let (st, t) := retry_effect wsError (cells c) in
        {| cells := st;
           timer := t;
           armed := (armed c ++ match t with Some d => [d] | None => [] end)%list;
           fired := fired c |}
  | CleanupRuns =>
      {| cells := cells c; timer := None; armed := armed c; fired := fired c |}
  | TimerFires =>
      match timer c with
      | Some _ =>
          {| cells := timer_fired (cells c); timer := None;
             armed := armed c; fired := S (fired c) |}
      | None => c
      end
  end.

Definition run (events : list event) : Component := fold_left handle events mounted.

End Page.

(** ** The slide viewer component *)

Module SlideViewer.

Section Viewer.
Context {SlideResult : Type}.
Variable slides : list SlideResult.

(** [slides.length] *)
Definition length_of : Z := Z.of_nat (length slides).

(** [useState(0)] *)
Definition initialSlide : Z := 0.

Definition goToPrevious (prev : Z) : Z := Z.max 0 (prev - 1).

Definition goToNext (prev : Z) : Z := Z.min (length_of - 1) (prev + 1).

Inductive nav := Previous | Next.

Definition step (currentSlide : Z) (op : nav) : Z :=
  match op with
  | Previous => goToPrevious currentSlide
  | Next => goToNext currentSlide
  end.

(** The index after a sequence of clicks, starting from the first slide. *)
Definition navigate (ops : list nav) : Z := fold_left step ops initialSlide.

(** [slides[currentSlide]]: [None] is [undefined], which is what an index
    outside the array reads as. *)
Definition slide_at (currentSlide : Z) : option SlideResult :=
  if (currentSlide <? 0)%Z then None else slides !! Z.to_nat currentSlide.
End Viewer.

End SlideViewer.

(** ** More of [frontend/lib/api.ts] *)

Module Results.
Import Api Fetch.




(** [export interface MCQ] *)
Inductive Difficulty := Easy | Medium | Hard.

Record MCQ := {
  question : string;
  options : list string;
  answer : string;
  difficulty : Difficulty;
}.

(** The [qa] member of [SlideResult]; [None] is a member left out. *)
Record QA := {
  easy : option (list MCQ);
  medium : option (list MCQ);
  hard : option (list MCQ);
}.

(** [export interface SlideResult]; [None] is [null] or a member left
    out. *)
Record SlideResult := {
  slide_number : Z;
  text : string;
  has_text : bool;
  title : option string;
  bullets : option (list string);
  narration : option string;
  qa : option QA;
  audio_path : option string;
  image_path : option string;
  video_path : option string;
}.

(** [export interface JobResult], less the timing and cache counters,
    which none of the components modelled here reads. *)
Record JobResult := {
  job_id : string;
  job_status : string;
  filename : string;
  language : string;
  mode : string;
  slides : list SlideResult;
  final_video_path : option string;
  finalVideoPath : option string;
}.



End Results.

(** ** The slide viewer: the questions of the current slide *)

Module SlideContent.
Import Results.

(** [slide] is [slides[currentSlide]], [undefined] out of range.  An array
    is truthy, so [a || []] only replaces a missing one. *)
Definition slideMcqs (slide : option SlideResult) : list MCQ :=
  match slide with
  | Some s =>
      match qa s with
      | Some q => (default [] (easy q) ++ default [] (medium q) ++ default [] (hard q))%list
      | None => []
      end
  | None => []
  end.

(** The [disabled] attributes of the two navigation buttons:
    [currentSlide === 0] and [currentSlide === slides.length - 1]. *)
Definition previousDisabled (currentSlide : Z) : bool := (currentSlide =? 0)%Z.

Definition nextDisabled {A : Type} (slides : list A) (currentSlide : Z) : bool :=
  (currentSlide =? SlideViewer.length_of slides - 1)%Z.

End SlideContent.

(** ** The download panel component *)

Module DownloadPanel.
Import Api Fetch Results.




(** [l?.length || 0] *)
Definition length_or_0 (l : option (list MCQ)) : Z :=
  match l with
  | Some l => Z.of_nat (length l)
  | None => 0
  end.

Definition hasMcqs (result : JobResult) : bool :=
  existsb
    (λ s, match qa s with
          | Some q => (0 <? length_or_0 (easy q) + length_or_0 (medium q) + length_or_0 (hard q))%Z
          | None => false
          end)
    (slides result).











End DownloadPanel.

(** * Properties *)

(** ** String methods *)

Module StrFacts.
Import Str.

(** [p] occurs in [s] at offset [i], and nowhere before. *)
Definition first_occurrence (s p : string) (i : nat) : Prop :=
  startsWith (slice s i) p = true ∧ ∀ k, (k < i)%nat → startsWith (slice s k) p = false.

(** [p] occurs nowhere in [s]. *)
Definition no_occurrence (s p : string) : Prop :=
  ∀ k, startsWith (slice s k) p = false.

Lemma startsWith_empty_l p : startsWith "" p = true → p = "".
Proof. destruct p; [reflexivity | discriminate]. Qed.

Lemma startsWith_nil s : startsWith s "" = true.
Proof. destruct s; reflexivity. Qed.

Lemma slice_empty n : slice "" n = "".
Proof. destruct n; reflexivity. Qed.

Lemma startsWith_head s c p :
  startsWith s (String c p) = true → ∃ s', s = String c s'.
Proof.
  destruct s as [|b s]; simpl; [discriminate|].
  intros [->%Ascii.eqb_eq _]%andb_true_iff. eauto.
Qed.

Lemma startsWith_slash s c p :
  startsWith s (String c p) = true → startsWith s (String c "") = true.
Proof.
  intros [s' ->]%startsWith_head. simpl. rewrite Ascii.eqb_refl. destruct s'; reflexivity.
Qed.

Lemma indexOf_unfold s p :
  indexOf s p =
    if startsWith s p then Some O
    else match s with
         | EmptyString => None
         | String _ s' => S <$> indexOf s' p
         end.
Proof. destruct s; reflexivity. Qed.

Lemma indexOf_first s p i : indexOf s p = Some i → first_occurrence s p i.
Proof.
  revert i. induction s as [|c s IH]; intros i; rewrite indexOf_unfold;
    destruct (startsWith _ p) eqn:E.
  - intros [= <-]. split; [exact E | lia].
  - discriminate.
  - intros [= <-]. split; [exact E | lia].
  - destruct (indexOf s p) as [j|]; [|discriminate].
    intros [= <-]. destruct (IH j eq_refl) as [Hat Hbefore].
    split; [exact Hat|].
    intros [|k] Hk; [exact E | apply Hbefore; lia].
Qed.

Lemma indexOf_none s p : indexOf s p = None → no_occurrence s p.
Proof.
  induction s as [|c s IH]; rewrite indexOf_unfold;
    destruct (startsWith _ p) eqn:E; try discriminate.
  - intros _ k. rewrite slice_empty. exact E.
  - destruct (indexOf s p) eqn:Ei; [discriminate|].
    intros _ [|k]; [exact E | apply IH; reflexivity].
Qed.

Lemma first_occurrence_indexOf s p i : first_occurrence s p i → indexOf s p = Some i.
Proof.
  intros [Hat Hbefore].
  destruct (indexOf s p) as [j|] eqn:E.
  - apply indexOf_first in E as [Hj Hjb].
    f_equal. destruct (Nat.lt_trichotomy i j) as [H|[H|H]]; [|congruence|].
    + rewrite (Hjb _ H) in Hat. discriminate.
    + rewrite (Hbefore _ H) in Hj. discriminate.
  - apply indexOf_none in E. rewrite (E i) in Hat. discriminate.
Qed.

Lemma no_occurrence_indexOf s p : no_occurrence s p → indexOf s p = None.
Proof.
  intros Hno. destruct (indexOf s p) as [j|] eqn:E; [|reflexivity].
  apply indexOf_first in E as [Hj _]. rewrite (Hno j) in Hj. discriminate.
Qed.

(** After [replace(/\\/g, '/')] no backslash is left, the length is the
    same, and every other character is where it was. *)
Lemma replace_backslashes_get s n :
  String.get n (replace_backslashes s) =
    (fun c => if Ascii.eqb c "\"%char then "/"%char else c) <$> String.get n s.
Proof.
  revert n. induction s as [|c s IH]; intros [|n]; simpl; auto.
Qed.

Lemma strip_trailing_slash_noop s :
  (∀ t, s ≠ t ++ "/") → strip_trailing_slash s = s.
Proof.
  induction s as [|c s IH]; intros Hno; [reflexivity|].
  simpl. destruct s as [|d s].
  - destruct (Ascii.eqb_spec c "/"%char) as [->|]; [|reflexivity].
    exfalso. apply (Hno ""). reflexivity.
  - f_equal. apply IH. intros t Heq. apply (Hno (String c t)).
    rewrite Heq. reflexivity.
Qed.

End StrFacts.

(** ** The URL helpers *)

Module ApiFacts.
Import Str StrFacts Api.

Lemma joinUrl_absolute base rel :
  startsWith rel "/" = true → joinUrl base rel = base ++ rel.
Proof.
  intros H. unfold joinUrl. rewrite H.
  apply startsWith_head in H as [rel' ->]. reflexivity.
Qed.

Lemma getApiBaseUrl_configured env u :
  NEXT_PUBLIC_API_URL env = Some u → u ≠ "" →
  getApiBaseUrl env = strip_trailing_slash u.
Proof.
  intros Hu Hne. unfold getApiBaseUrl. rewrite Hu.
  destruct (String.eqb_spec u ""); [contradiction | reflexivity].
Qed.

Lemma getApiBaseUrl_default env :
  NEXT_PUBLIC_API_URL env = None ∨ NEXT_PUBLIC_API_URL env = Some "" →
  getApiBaseUrl env = "http://localhost:8000".
Proof. intros [H|H]; unfold getApiBaseUrl; rewrite H; reflexivity. Qed.

(** C8.  For every job id the push-channel URL is the literal
    [ws://localhost:8000/ws/jobs/] followed by the id, whatever
    [NEXT_PUBLIC_API_URL] holds; the base of the poll-channel URL is the
    configured value (less one trailing slash) whenever one is configured;
    hence there is a configuration under which the poll channel addresses
    another host than the push channel. *)
Theorem push_url_ignores_configuration (jobId : string) :
  (∀ env, getWebSocketUrl env jobId = "ws://localhost:8000/ws/jobs/" ++ jobId)
  ∧ (∀ env u, NEXT_PUBLIC_API_URL env = Some u → u ≠ "" →
       getApiBaseUrl env = strip_trailing_slash u
       ∧ joinUrl (getApiBaseUrl env) (Fetch.status_path jobId)
         = strip_trailing_slash u ++ "/api/v1/jobs/" ++ jobId ++ "/status")
  ∧ (∃ env, startsWith (joinUrl (getApiBaseUrl env) (Fetch.status_path jobId))
              "https://api.example.org/" = true
            ∧ startsWith (getWebSocketUrl env jobId) "ws://localhost:8000/" = true).
Proof.
  split; [reflexivity|]. split.
  - intros env u Hu Hne.
    rewrite (getApiBaseUrl_configured env u Hu Hne). split; [reflexivity|].
    apply joinUrl_absolute. reflexivity.
  - exists {| NEXT_PUBLIC_API_URL := Some "https://api.example.org/" |}.
    split; reflexivity.
Qed.

Lemma push_url_ignores_configuration_witness :
  getWebSocketUrl {| NEXT_PUBLIC_API_URL := Some "https://api.example.org" |} "j1"
    = "ws://localhost:8000/ws/jobs/j1"
  ∧ joinUrl (getApiBaseUrl {| NEXT_PUBLIC_API_URL := Some "https://api.example.org" |})
      (Fetch.status_path "j1")
    = "https://api.example.org/api/v1/jobs/j1/status".
Proof.
  destruct (push_url_ignores_configuration "j1") as (Hws & Hpoll & _).
  split; [apply Hws|].
  apply (Hpoll {| NEXT_PUBLIC_API_URL := Some "https://api.example.org" |}
           "https://api.example.org"); [reflexivity | discriminate].
Defined.

(** C9.  [getFileUrl] case by case: nothing for a missing or empty path; an
    [http://] or [https://] path as it is; otherwise, with every backslash
    turned into a slash, the API base URL followed by the path from its
    first [/data/] on, or (when there is none) from its first [/storage/]
    on, or (when there is neither) by the whole path, with a [/] put in
    front if it does not start with one. *)
Theorem getFileUrl_cases (env : ProcessEnv) (path : option string) :
  (path = None ∨ path = Some "" → getFileUrl env path = "")
  ∧ (∀ p, path = Some p →
       startsWith p "http://" = true ∨ startsWith p "https://" = true →
       getFileUrl env path = p)
  ∧ (∀ p, path = Some p → p ≠ "" →
       startsWith p "http://" = false → startsWith p "https://" = false →
       let normalized := replace_backslashes p in
       (∀ i, first_occurrence normalized "/data/" i →
          getFileUrl env path = getApiBaseUrl env ++ slice normalized i)
       ∧ (no_occurrence normalized "/data/" →
          ∀ j, first_occurrence normalized "/storage/" j →
            getFileUrl env path = getApiBaseUrl env ++ slice normalized j)
       ∧ (no_occurrence normalized "/data/" → no_occurrence normalized "/storage/" →
          startsWith normalized "/" = true →
          getFileUrl env path = getApiBaseUrl env ++ normalized)
       ∧ (no_occurrence normalized "/data/" → no_occurrence normalized "/storage/" →
          startsWith normalized "/" = false →
          getFileUrl env path = getApiBaseUrl env ++ "/" ++ normalized)).
Proof.
  split; [|split].
  - intros [->| ->]; reflexivity.
  - intros p -> Hhttp. unfold getFileUrl.
    destruct (String.eqb_spec p "") as [->|_].
    + destruct Hhttp; discriminate.
    + destruct Hhttp as [-> | ->]; [reflexivity | rewrite orb_true_r; reflexivity].
  - intros p -> Hne H1 H2 normalized. unfold getFileUrl.
    destruct (String.eqb_spec p ""); [contradiction|].
    rewrite H1, H2. simpl orb. cbv iota. fold normalized.
    repeat split.
    + intros i Hi. rewrite (first_occurrence_indexOf _ _ _ Hi).
      apply joinUrl_absolute. destruct Hi as [Hi _].
      exact (startsWith_slash _ _ _ Hi).
    + intros Hd j Hj.
      rewrite (no_occurrence_indexOf _ _ Hd), (first_occurrence_indexOf _ _ _ Hj).
      apply joinUrl_absolute. destruct Hj as [Hj _].
      exact (startsWith_slash _ _ _ Hj).
    + intros Hd Hs Habs.
      rewrite (no_occurrence_indexOf _ _ Hd), (no_occurrence_indexOf _ _ Hs), Habs.
      apply joinUrl_absolute. exact Habs.
    + intros Hd Hs Hrel.
      rewrite (no_occurrence_indexOf _ _ Hd), (no_occurrence_indexOf _ _ Hs), Hrel.
      apply joinUrl_absolute.
      change (startsWith (String "/" normalized) "/" = true).
      apply startsWith_nil.
Qed.

Lemma getFileUrl_cases_witness :
  getFileUrl {| NEXT_PUBLIC_API_URL := None |} (Some "C:\app\data\images\s1.png")
    = "http://localhost:8000/data/images/s1.png".
Proof.
  destruct (getFileUrl_cases {| NEXT_PUBLIC_API_URL := None |}
              (Some "C:\app\data\images\s1.png")) as (_ & _ & H).
  specialize (H "C:\app\data\images\s1.png" eq_refl).
  destruct H as (Hdata & _); [discriminate | reflexivity | reflexivity |].
  apply (Hdata 6%nat). apply indexOf_first. reflexivity.
Defined.

End ApiFacts.

(** ** The slide viewer *)

Module SlideViewerFacts.
Import SlideViewer.

Section Bounds.
Context {SlideResult : Type}.
Variable slides : list SlideResult.
Hypothesis nonempty : slides ≠ [].

Let last_index : Z := length_of slides - 1.

Lemma length_of_pos : (0 < length_of slides)%Z.
Proof using nonempty.
  unfold length_of. destruct slides; [contradiction | simpl; lia].
Qed.

Lemma step_in_bounds (i : Z) (op : nav) :
  (0 ≤ i ≤ last_index)%Z → (0 ≤ step slides i op ≤ last_index)%Z.
Proof using nonempty.
  pose proof length_of_pos.
  unfold last_index. destruct op; unfold step, goToPrevious, goToNext; lia.
Qed.

Lemma run_in_bounds (ops : list nav) (i : Z) :
  (0 ≤ i ≤ last_index)%Z → (0 ≤ fold_left (step slides) ops i ≤ last_index)%Z.
Proof using nonempty.
  revert i. induction ops as [|op ops IH]; intros i Hi; simpl; [exact Hi|].
  apply IH, step_in_bounds, Hi.
Qed.

Lemma slide_at_in_bounds (i : Z) :
  (0 ≤ i ≤ last_index)%Z → is_Some (slide_at slides i).
Proof using Type.
  unfold last_index, length_of, slide_at. intros Hi.
  destruct (Z.ltb_spec i 0); [lia|].
  apply lookup_lt_is_Some. lia.
Qed.
End Bounds.

(** C10.  For a non-empty slide list, after any sequence of previous/next
    clicks starting from the first slide the current index lies in
    [0, slides.length - 1] and [slides[currentSlide]] is a slide; previous
    stays at 0 and next stays at the last index. *)
Theorem currentSlide_in_bounds {SlideResult : Type}
    (slides : list SlideResult) (ops : list nav) :
  slides ≠ [] →
  (0 ≤ navigate slides ops ≤ length_of slides - 1)%Z
  ∧ is_Some (slide_at slides (navigate slides ops))
  ∧ goToPrevious 0 = 0%Z
  ∧ goToNext slides (length_of slides - 1) = (length_of slides - 1)%Z.
Proof.
  intros Hne.
  assert (0 ≤ navigate slides ops ≤ length_of slides - 1)%Z as Hb.
  { apply run_in_bounds; [exact Hne|].
    pose proof (length_of_pos slides Hne). unfold initialSlide. lia. }
  split; [exact Hb|]. split; [exact (slide_at_in_bounds slides _ Hb)|].
  unfold goToPrevious, goToNext. lia.
Qed.

Lemma currentSlide_in_bounds_witness :
  (0 ≤ navigate ["s1"; "s2"] [Next; Next; Next; Previous; Previous; Previous; Next] ≤ 1)%Z
  ∧ is_Some (slide_at ["s1"; "s2"]
               (navigate ["s1"; "s2"] [Next; Next; Next; Previous; Previous; Previous; Next])).
Proof.
  destruct (currentSlide_in_bounds ["s1"; "s2"]
              [Next; Next; Next; Previous; Previous; Previous; Next])
    as (Hb & Hs & _); [discriminate|].
  split; [exact Hb | exact Hs].
Defined.

End SlideViewerFacts.

(** ** The job-not-found retry effect *)

Module RetryFacts.
Import Str Page.

Lemma retry_effect_arms wsError st st' d :
  retry_effect wsError st = (st', Some d) →
  (wsRetry st < jobNotFoundMaxRetries)%Z
  ∧ d = jobNotFoundRetryDelayMs
  ∧ is_job_not_found wsError = true
  ∧ st' = {| wsRetry := wsRetry st; wsRetrying := true;
             retryCount := Z.min (retryCount st + 1) jobNotFoundMaxRetries |}.
Proof.
  unfold retry_effect.
  destruct (no_error wsError); [discriminate|].
  destruct (is_job_not_found wsError); simpl; [|discriminate].
  destruct (Z.ltb_spec (wsRetry st) jobNotFoundMaxRetries); [|discriminate].
  intros [= <- <-]. auto.
Qed.

Lemma retry_effect_idle wsError st st' :
  retry_effect wsError st = (st', None) →
  st' = {| wsRetry := wsRetry st; wsRetrying := false; retryCount := retryCount st |}
  ∧ (is_job_not_found wsError = true → (jobNotFoundMaxRetries ≤ wsRetry st)%Z).
Proof.
  unfold retry_effect.
  destruct (no_error wsError) eqn:Hno.
  - intros [= <-]. split; [reflexivity|].
    destruct wsError as [e|]; simpl in *; [|discriminate].
    apply String.eqb_eq in Hno as ->. discriminate.
  - destruct (is_job_not_found wsError); simpl.
    + destruct (Z.ltb_spec (wsRetry st) jobNotFoundMaxRetries); [discriminate|].
      intros [= <-]. split; [reflexivity | intros _; assumption].
    + intros [= <-]. split; [reflexivity | discriminate].
Qed.

(** What every reachable state of the component satisfies. *)
Record invariant (c : Component) : Prop := {
  inv_fired : wsRetry (cells c) = Z.of_nat (fired c);
  inv_bound : (wsRetry (cells c) ≤ jobNotFoundMaxRetries)%Z;
  inv_count : (wsRetry (cells c) ≤ retryCount (cells c) ≤ jobNotFoundMaxRetries)%Z;
  inv_delays : Forall (λ d, d = jobNotFoundRetryDelayMs) (armed c);
  inv_timer :
    timer c ≠ None →
    (wsRetry (cells c) < jobNotFoundMaxRetries)%Z
    ∧ (wsRetry (cells c) < retryCount (cells c))%Z
    ∧ wsRetrying (cells c) = true;
}.

Lemma invariant_mounted : invariant mounted.
Proof.
  split; simpl; unfold jobNotFoundMaxRetries; try lia; [constructor | contradiction].
Qed.

Lemma invariant_handle c ev : invariant c → invariant (handle c ev).
Proof.
  intros [Hf Hb Hc Hd Ht].
  destruct ev as [isLoading pollStatus wsStatus wsError| |]; simpl.
  - destruct (returns_early isLoading pollStatus wsStatus); [split; assumption|].
    destruct (retry_effect wsError (cells c)) as [st [d|]] eqn:Heff.
    + apply retry_effect_arms in Heff as (Hlt & -> & _ & ->).
      split; simpl; try assumption; try lia;
        try (intros _; repeat split; lia).
      apply Forall_app. split; [assumption | repeat constructor].
    + apply retry_effect_idle in Heff as (-> & _).
      split; simpl; try assumption; try contradiction.
      rewrite app_nil_r. assumption.
  - split; simpl; try assumption. contradiction.
  - destruct (timer c) as [d|] eqn:Htimer;
      [|split; try assumption; intros Hsome; congruence].
    destruct Ht as (Hlt & Hlt' & _); [discriminate|].
    split; simpl; try assumption; try lia; contradiction.
Qed.

Lemma invariant_run events : invariant (run events).
Proof.
  unfold run. generalize invariant_mounted. generalize mounted.
  induction events as [|ev events IH]; intros c Hc; simpl; [exact Hc|].
  apply IH, invariant_handle, Hc.
Qed.







End RetryFacts.

(** ** The merged status object *)

Module MergeFacts.
Import Api Wire Page.

Definition overridden : list string := ["slides_progress"; "status"; "progress"].

Lemma status_progress pollStatus wsStatus :
  status pollStatus wsStatus !! "progress" = Some (merged_progress pollStatus wsStatus).
Proof. unfold status. apply lookup_insert_eq. Qed.

Lemma status_status pollStatus wsStatus :
  status pollStatus wsStatus !! "status" = Some (merged_status pollStatus wsStatus).
Proof.
  unfold status. rewrite lookup_insert_ne by discriminate. apply lookup_insert_eq.
Qed.

Lemma status_slides_progress pollStatus wsStatus :
  status pollStatus wsStatus !! "slides_progress"
    = Some (merged_slides_progress pollStatus wsStatus).
Proof.
  unfold status. do 2 (rewrite lookup_insert_ne by discriminate). apply lookup_insert_eq.
Qed.

Lemma status_other pollStatus wsStatus k :
  k ∉ overridden →
  status pollStatus wsStatus !! k = (spread wsStatus ∪ spread pollStatus) !! k.
Proof.
  intros Hk. unfold status, overridden in *.
  rewrite !lookup_insert_ne; [reflexivity|..]; intros <-; apply Hk; set_solver.
Qed.

Lemma js_or_truthy a b : truthy a = true → js_or a b = a.
Proof. unfold js_or. intros ->. reflexivity. Qed.

Lemma js_or_falsy a b : truthy a = false → js_or a b = b.
Proof. unfold js_or. intros ->. reflexivity. Qed.

Lemma prop_lookup (o : gmap string jsval) k v : o !! k = Some v → prop o k = v.
Proof. unfold prop. intros ->. reflexivity. Qed.

Lemma prop_missing (o : gmap string jsval) k : o !! k = None → prop o k = JUndefined.
Proof. unfold prop. intros ->. reflexivity. Qed.

(** A truthy value of the first operand that has one decides any of the
    three [a?.k || b?.k || fallback] members. *)
Lemma merged_member_push (poll push : gmap string jsval) k v fallback :
  push !! k = Some v → truthy v = true →
  js_or (js_or (opt_chain (Some push) k) (opt_chain (Some poll) k)) fallback = v.
Proof.
  intros Hk Hv. simpl. rewrite (prop_lookup _ _ _ Hk).
  rewrite (js_or_truthy v) by exact Hv. apply js_or_truthy, Hv.
Qed.

Lemma merged_member_poll (poll : gmap string jsval) (wsStatus : option (gmap string jsval))
    k v fallback :
  opt_chain wsStatus k = JUndefined → poll !! k = Some v → truthy v = true →
  js_or (js_or (opt_chain wsStatus k) (opt_chain (Some poll) k)) fallback = v.
Proof.
  intros Hws Hk Hv. rewrite Hws. simpl. rewrite (prop_lookup _ _ _ Hk).
  rewrite (js_or_falsy JUndefined) by reflexivity. apply js_or_truthy, Hv.
Qed.

Lemma status_member (pollStatus wsStatus : option (gmap string jsval)) k :
  k ∈ overridden →
  ∃ fallback,
    status pollStatus wsStatus !! k
      = Some (js_or (js_or (opt_chain wsStatus k) (opt_chain pollStatus k)) fallback).
Proof.
  unfold overridden. rewrite !elem_of_cons, elem_of_nil.
  intros [->|[->|[->|[]]]]; eexists.
  - apply status_slides_progress.
  - apply status_status.
  - apply status_progress.
Qed.

(** Two snapshots of one job: the poll result carries the later update
    time and the larger progress. *)
Definition poll_T2 : gmap string jsval :=
  {[ "job_id" := JStr "j1"; "status" := JStr "processing"; "progress" := JNum 80;
     "updated_at" := JStr "2024-05-01T10:00:02Z" ]}.

Definition push_T1 : gmap string jsval :=
  {[ "job_id" := JStr "j1"; "status" := JStr "processing"; "progress" := JNum 40;
     "updated_at" := JStr "2024-05-01T10:00:01Z" ]}.

(** The order on update times the reconciliation rule is phrased with:
    timestamps of one ISO-8601 format compare as strings. *)
Definition updated_before (a b : gmap string jsval) : bool :=
  match a !! "updated_at", b !! "updated_at" with
  | Some (JStr s), Some (JStr t) => String.ltb s t
  | _, _ => false
  end.

(** The rule as the specification words it: the push snapshot overrides
    the poll result only if its update time is strictly newer. *)
Definition last_writer_wins (poll push : gmap string jsval) : gmap string jsval :=
  if updated_before poll push then push ∪ poll else poll.

(** C1, as stated, fails: the push snapshot [push_T1] is older than the
    poll result [poll_T2], yet the merged object shows the push snapshot's
    progress and update time, not the poll result's. *)
Lemma stale_push_overrides_newer_poll :
  updated_before push_T1 poll_T2 = true
  ∧ poll_T2 !! "progress" = Some (JNum 80)
  ∧ status (Some poll_T2) (Some push_T1) !! "progress" = Some (JNum 40)
  ∧ status (Some poll_T2) (Some push_T1) !! "updated_at"
    = Some (JStr "2024-05-01T10:00:01Z")
  ∧ last_writer_wins poll_T2 push_T1 !! "progress" = Some (JNum 80)
  ∧ status (Some poll_T2) (Some push_T1) !! "progress"
    ≠ last_writer_wins poll_T2 push_T1 !! "progress".
Proof. repeat split; try reflexivity. vm_compute. discriminate. Qed.

(** C1, amended.  The merge goes by channel, not by update time: for any
    two snapshots, a truthy value the push snapshot has for a field is the
    merged value of that field; the poll result's truthy value shows where
    the push snapshot lacks the field, and when there is no push snapshot. *)
Theorem merge_prefers_push (poll push : gmap string jsval) (k : string) (v : jsval) :
  truthy v = true →
  (push !! k = Some v → status (Some poll) (Some push) !! k = Some v)
  ∧ (push !! k = None → poll !! k = Some v →
     status (Some poll) (Some push) !! k = Some v)
  ∧ (poll !! k = Some v → status (Some poll) None !! k = Some v).
Proof.
  intros Hv. destruct (decide (k ∈ overridden)) as [Hin|Hout].
  - destruct (status_member (Some poll) (Some push) k Hin) as [f1 ->].
    destruct (status_member (Some poll) None k Hin) as [f2 ->].
    split; [|split].
    + intros Hk. f_equal. apply merged_member_push; assumption.
    + intros Hnone Hk. f_equal. apply merged_member_poll; try assumption.
      simpl. apply prop_missing, Hnone.
    + intros Hk. f_equal. apply merged_member_poll; try assumption. reflexivity.
  - rewrite !status_other by exact Hout. simpl.
    split; [|split].
    + intros Hk. apply lookup_union_Some_l, Hk.
    + intros Hnone Hk. rewrite lookup_union_r by exact Hnone. exact Hk.
    + intros Hk. rewrite (left_id_L ∅ (∪)). exact Hk.
Qed.

Lemma merge_prefers_push_witness :
  status (Some poll_T2) (Some push_T1) !! "progress" = Some (JNum 40).
Proof.
  destruct (merge_prefers_push poll_T2 push_T1 "progress" (JNum 40)) as (Hpush & _).
  - reflexivity.
  - apply Hpush. reflexivity.
Defined.

(** *** Progress over successive renders *)

(** What the two hooks hold at one render: [(pollStatus, wsStatus)]. *)
Definition presented (renders : list (option (gmap string jsval) * option (gmap string jsval)))
    : list jsval :=
  (λ r, shown_progress r.1 r.2) <$> renders.

(** No later entry is a smaller number than an earlier one. *)
Definition never_decreases (shown : list jsval) : Prop :=
  ∀ (i j : nat) (a b : Z),
    (i ≤ j)%nat → shown !! i = Some (JNum a) → shown !! j = Some (JNum b) → (a ≤ b)%Z.

(** C3, as stated, fails: the poll result is in at the first render, the
    push snapshot arrives at the second.  Each channel on its own never
    went down; the number shown goes from 80 to 40. *)
Lemma merged_progress_can_decrease :
  presented [(Some poll_T2, None); (Some poll_T2, Some push_T1)] = [JNum 80; JNum 40]
  ∧ ¬ never_decreases (presented [(Some poll_T2, None); (Some poll_T2, Some push_T1)]).
Proof.
  split; [reflexivity|].
  intros H. specialize (H 0%nat 1%nat 80%Z 40%Z).
  assert (80 ≤ 40)%Z; [|lia].
  apply H; [lia | reflexivity | reflexivity].
Qed.

Lemma shown_progress_push (pollStatus : option (gmap string jsval))
    (push : gmap string jsval) (p : Z) :
  prop push "progress" = JNum p → (0 < p)%Z →
  shown_progress pollStatus (Some push) = JNum p.
Proof.
  intros Hp Hpos. unfold shown_progress.
  rewrite (prop_lookup _ _ _ (status_progress _ _)).
  assert (truthy (JNum p) = true) as Ht.
  { simpl. destruct (Z.eqb_spec p 0); [lia | reflexivity]. }
  unfold merged_progress. simpl opt_chain. rewrite Hp.
  rewrite (js_or_truthy (JNum p) (opt_chain pollStatus "progress")) by exact Ht.
  rewrite !(js_or_truthy (JNum p) (JNum 0)) by exact Ht.
  reflexivity.
Qed.

(** C3, amended.  The merged view shows the push snapshot's progress
    whenever that is a positive number, whatever the poll result says; so
    over any run of renders in which the push hook holds positive progress
    values [ps], what is shown is exactly [ps], and it never decreases if
    [ps] does not. *)
Theorem merged_progress_follows_push
    (renders : list (option (gmap string jsval) * option (gmap string jsval)))
    (ps : list Z) :
  (λ r, opt_chain r.2 "progress") <$> renders = JNum <$> ps →
  Forall (λ p, 0 < p)%Z ps →
  presented renders = JNum <$> ps
  ∧ ((∀ (i j : nat) (a b : Z), (i ≤ j)%nat → ps !! i = Some a → ps !! j = Some b → (a ≤ b)%Z) →
     never_decreases (presented renders)).
Proof.
  intros Hpush Hpos.
  assert (presented renders = JNum <$> ps) as Heq.
  { revert ps Hpush Hpos.
    induction renders as [|[pollStatus wsStatus] renders IH];
      intros [|p ps] Hpush Hpos; try discriminate; [reflexivity|].
    injection Hpush as Hhead Htail. inversion_clear Hpos as [|? ? Hp Hps].
    unfold presented. simpl. f_equal; [|apply IH; assumption].
    destruct wsStatus as [push|]; [|discriminate].
    apply shown_progress_push; assumption. }
  split; [exact Heq|].
  intros Hmono i j a b Hij Hi Hj. rewrite Heq in Hi, Hj.
  rewrite list_lookup_fmap in Hi, Hj.
  destruct (ps !! i) as [a'|] eqn:Ea; [|discriminate].
  destruct (ps !! j) as [b'|] eqn:Eb; [|discriminate].
  injection Hi as <-. injection Hj as <-.
  exact (Hmono i j a' b' Hij Ea Eb).
Qed.

Lemma merged_progress_follows_push_witness :
  presented [(Some poll_T2, Some push_T1); (None, Some push_T1)] = [JNum 40; JNum 40].
Proof.
  destruct (merged_progress_follows_push
              [(Some poll_T2, Some push_T1); (None, Some push_T1)] [40; 40]%Z)
    as (Heq & _).
  - reflexivity.
  - repeat constructor.
  - exact Heq.
Defined.

End MergeFacts.

(** ** The wire types *)

Module WireFacts.
Import Api Wire.

Lemma required_inv p (o : gmap string jsval) k :
  required p o k = true → ∃ v, o !! k = Some v ∧ p v = true.
Proof. unfold required. destruct (o !! k) as [v|]; [eauto | discriminate]. Qed.

Lemma optional_inv p (o : gmap string jsval) k v :
  optional p o k = true → o !! k = Some v → v = JUndefined ∨ p v = true.
Proof.
  unfold optional. intros H Hk. rewrite Hk in H. destruct v; auto.
Qed.

Lemma is_string_inv v : is_string v = true → ∃ s, v = JStr s.
Proof. destruct v; try discriminate. eauto. Qed.

Lemma is_number_inv v : is_number v = true → ∃ n, v = JNum n.
Proof. destruct v; try discriminate. eauto. Qed.

Lemma nullable_inv p v : nullable p v = true → v = JNull ∨ p v = true.
Proof. destruct v; simpl; auto. Qed.

Lemma is_JobState_inv v : is_JobState v = true → ∃ s, v = JStr (JobState_str s).
Proof.
  destruct v as [| | | |t| |]; try discriminate.
  intros H. apply bool_decide_eq_true_1, list_elem_of_fmap in H as (s & -> & _). eauto.
Qed.

Lemma is_SlideState_inv v : is_SlideState v = true → ∃ s, v = JStr (SlideState_str s).
Proof.
  destruct v as [| | | |t| |]; try discriminate.
  intros H. apply bool_decide_eq_true_1, list_elem_of_fmap in H as (s & -> & _). eauto.
Qed.

Lemma JobState_str_truthy s : truthy (JStr (JobState_str s)) = true.
Proof. destruct s; reflexivity. Qed.

(** The shape of one [slides_progress] entry. *)
Definition slide_entry (e : jsval) : Prop :=
  ∃ (eo : gmap string jsval) (num : Z) (narration mcq video : SlideState),
    e = JObj eo
    ∧ eo !! "slide_number" = Some (JNum num)
    ∧ eo !! "narration" = Some (JStr (SlideState_str narration))
    ∧ eo !! "mcq" = Some (JStr (SlideState_str mcq))
    ∧ eo !! "video" = Some (JStr (SlideState_str video)).

Lemma has_SlideProgress_inv e : has_SlideProgress e = true → slide_entry e.
Proof.
  destruct e as [| | | | | |eo]; try discriminate. simpl.
  rewrite !andb_true_iff.
  intros [[[[(v1 & H1 & [n ->]%is_number_inv)%required_inv
               (v2 & H2 & [s2 ->]%is_SlideState_inv)%required_inv]
              (v3 & H3 & [s3 ->]%is_SlideState_inv)%required_inv]
             (v4 & H4 & [s4 ->]%is_SlideState_inv)%required_inv] _].
  exists eo, n, s2, s3, s4. auto.
Qed.

(** Members the interface does not declare are not looked at. *)
Lemma has_JobStatus_undeclared (o : gmap string jsval) k :
  k ∉ JobStatus_fields → has_JobStatus (delete k o) = has_JobStatus o.
Proof.
  unfold JobStatus_fields. rewrite !not_elem_of_cons. intros Hk.
  destruct_and!.
  unfold has_JobStatus, required, optional.
  rewrite !lookup_delete_ne by assumption.
  reflexivity.
Qed.

(** The status response given as the example in [docs/api.md]. *)
Definition documented_entry : gmap string jsval :=
  {[ "slide_number" := JNum 1; "narration" := JStr "completed";
     "mcq" := JStr "completed"; "video" := JStr "completed" ]}.

Definition documented_status : gmap string jsval :=
  {[ "job_id" := JStr "uuid"; "status" := JStr "processing"; "progress" := JNum 45;
     "current_slide" := JNum 3; "total_slides" := JNum 10;
     "current_step" := JStr "Generating narrations";
     "slides_progress" := JArr [JObj documented_entry] ]}.

(** What the declared [JobStatus] shape says of an object, member by
    member: a string [job_id], a [status] that is one of the five
    [JobState] strings, a numeric [progress]; [current_slide] and
    [total_slides], when present, numbers or null; [current_step], [error]
    and [completed_at], when present, strings or null; [created_at] and
    [updated_at], when present, strings; [slides_progress], when present,
    an array whose entries each have [slide_number] and the sub-states
    [narration], [mcq] and [video]; no member that is not declared is
    needed. *)
Definition declared_shape (o : gmap string jsval) : Prop :=
  (∃ id, o !! "job_id" = Some (JStr id))
  ∧ (∃ s : JobState, o !! "status" = Some (JStr (JobState_str s)))
  ∧ (∃ n : Z, o !! "progress" = Some (JNum n))
  ∧ (∀ k v, k ∈ ["current_slide"; "total_slides"] → o !! k = Some v →
       v = JUndefined ∨ v = JNull ∨ ∃ n : Z, v = JNum n)
  ∧ (∀ k v, k ∈ ["current_step"; "error"; "completed_at"] → o !! k = Some v →
       v = JUndefined ∨ v = JNull ∨ ∃ s : string, v = JStr s)
  ∧ (∀ k v, k ∈ ["created_at"; "updated_at"] → o !! k = Some v →
       v = JUndefined ∨ ∃ s : string, v = JStr s)
  ∧ (∀ v, o !! "slides_progress" = Some v →
       v = JUndefined ∨ ∃ items, v = JArr items ∧ Forall slide_entry items)
  ∧ (∀ k, k ∉ JobStatus_fields → has_JobStatus (delete k o) = true).

Lemma has_JobStatus_inv (o : gmap string jsval) :
  has_JobStatus o = true → declared_shape o.
Proof.
  unfold declared_shape. intros Hshape.
  assert (∀ k, k ∉ JobStatus_fields → has_JobStatus (delete k o) = true) as Hdel.
  { intros k Hk. rewrite <- Hshape. apply has_JobStatus_undeclared, Hk. }
  revert Hshape.
  unfold has_JobStatus. rewrite !andb_true_iff.
  intros [[[[[[[[[[Hid Hst] Hpr] Hcs] Hts] Hstep] Hsp] Herr] Hca] Hua] Hco].
  apply required_inv in Hid as (? & -> & [id ->]%is_string_inv).
  apply required_inv in Hst as (? & -> & [s ->]%is_JobState_inv).
  apply required_inv in Hpr as (? & -> & [n ->]%is_number_inv).
  split; [eauto|]. split; [eauto|]. split; [eauto|].
  assert (∀ k v, optional (nullable is_number) o k = true → o !! k = Some v →
            v = JUndefined ∨ v = JNull ∨ ∃ n : Z, v = JNum n) as Hnum.
  { intros k v Hopt Hk.
    destruct (optional_inv _ _ _ _ Hopt Hk) as [->|[->|Hn]%nullable_inv]; auto.
    right; right. apply is_number_inv, Hn. }
  assert (∀ k v, optional (nullable is_string) o k = true → o !! k = Some v →
            v = JUndefined ∨ v = JNull ∨ ∃ s : string, v = JStr s) as Hstr.
  { intros k v Hopt Hk.
    destruct (optional_inv _ _ _ _ Hopt Hk) as [->|[->|Hn]%nullable_inv]; auto.
    right; right. apply is_string_inv, Hn. }
  repeat split.
  - intros k v. rewrite !elem_of_cons, elem_of_nil.
    intros [->|[->|[]]]; apply Hnum; assumption.
  - intros k v. rewrite !elem_of_cons, elem_of_nil.
    intros [->|[->|[->|[]]]]; apply Hstr; assumption.
  - intros k v. rewrite !elem_of_cons, elem_of_nil.
    intros [->|[->|[]]] Hk.
    + destruct (optional_inv _ _ _ _ Hca Hk) as [->|Hs]; auto.
      right. apply is_string_inv, Hs.
    + destruct (optional_inv _ _ _ _ Hua Hk) as [->|Hs]; auto.
      right. apply is_string_inv, Hs.
  - intros v Hk.
    destruct (optional_inv _ _ _ _ Hsp Hk) as [->|Harr]; auto.
    right. destruct v as [| | | | |items|]; try discriminate.
    exists items. split; [reflexivity|].
    simpl in Harr. rewrite forallb_forall in Harr.
    apply Forall_forall. intros e He.
    apply has_SlideProgress_inv, Harr, list_elem_of_In, He.
  - exact Hdel.
Qed.

End WireFacts.

(** ** The displayed status *)

Module StatusFacts.
Import Api Wire Page MergeFacts WireFacts.

Lemma has_JobStatus_status (o : gmap string jsval) :
  has_JobStatus o = true → ∃ s : JobState, prop o "status" = JStr (JobState_str s).
Proof.
  unfold has_JobStatus. rewrite !andb_true_iff.
  intros [[[[[[[[[[_ Hst] _] _] _] _] _] _] _] _] _].
  apply required_inv in Hst as (v & Hv & [s ->]%is_JobState_inv).
  exists s. apply prop_lookup, Hv.
Qed.

(** C6, as stated, fails: before either hook holds data the status the
    page works with is ['Queued'], which is none of the five [JobState]
    values. *)
Lemma default_status_is_not_a_JobState :
  prop (status None None) "status" = JStr "Queued"
  ∧ is_JobState (prop (status None None) "status") = false.
Proof. split; vm_compute; reflexivity. Qed.

(** C6, amended.  When the snapshots the hooks hold have the declared
    [JobStatus] shape, the status of the merged object is one of the five
    [JobState] values as soon as either hook holds a snapshot; with no
    snapshot at all it is the literal ['Queued']. *)
Theorem merged_status_is_JobState_or_Queued
    (pollStatus wsStatus : option (gmap string jsval)) :
  (∀ o, pollStatus = Some o → has_JobStatus o = true) →
  (∀ o, wsStatus = Some o → has_JobStatus o = true) →
  (is_Some pollStatus ∨ is_Some wsStatus →
     ∃ s : JobState, prop (status pollStatus wsStatus) "status" = JStr (JobState_str s))
  ∧ (pollStatus = None → wsStatus = None →
     prop (status pollStatus wsStatus) "status" = JStr "Queued").
Proof.
  intros Hpoll Hws.
  rewrite (prop_lookup _ _ _ (status_status pollStatus wsStatus)).
  unfold merged_status. split.
  - intros Hsome. destruct wsStatus as [w|].
    + destruct (has_JobStatus_status w (Hws w eq_refl)) as [s Hs].
      exists s. simpl opt_chain. rewrite Hs.
      rewrite (js_or_truthy (JStr (JobState_str s)) (opt_chain pollStatus "status"))
        by apply JobState_str_truthy.
      apply js_or_truthy, JobState_str_truthy.
    + destruct Hsome as [[p ->]|[? [=]]].
      destruct (has_JobStatus_status p (Hpoll p eq_refl)) as [s Hs].
      exists s. simpl opt_chain. rewrite Hs.
      rewrite (js_or_falsy JUndefined) by reflexivity.
      apply js_or_truthy, JobState_str_truthy.
  - intros -> ->. reflexivity.
Qed.

Lemma merged_status_is_JobState_or_Queued_witness :
  ∃ s : JobState,
    prop (status (Some documented_status) None) "status" = JStr (JobState_str s).
Proof.
  destruct (merged_status_is_JobState_or_Queued (Some documented_status) None)
    as (Hin & _).
  - intros o [= <-]. vm_compute. reflexivity.
  - intros o [=].
  - apply Hin. left. eexists. reflexivity.
Defined.

End StatusFacts.

(** ** Polling *)

Module PollingFacts.
Import Api UseJobStatus.

Lemma refetchInterval_stops (data : option (gmap string jsval)) :
  refetchInterval data = NoRefetch
  ↔ opt_chain data "status" = JStr "Completed" ∨ opt_chain data "status" = JStr "Failed".
Proof.
  unfold refetchInterval.
  destruct (opt_chain data "status") as [| | | |t| |]; simpl;
    try (split; [discriminate | intros [?|?]; discriminate]).
  destruct (String.eqb_spec t "Completed") as [->|Hc]; simpl.
  - split; auto.
  - destruct (String.eqb_spec t "Failed") as [->|Hf].
    + split; auto.
    + split; [discriminate | intros [[=]|[=]]; contradiction].
Qed.

(** C2 on the code: polling does not stop on a terminal status as the
    [JobState] type spells it.  For a cancelled job, and for every value of
    [JobState] (the lower-case ['completed'] and ['failed'] included), the
    refetch interval stays 2000 ms; only the capitalised ['Completed'] and
    ['Failed'] stop it. *)
Theorem refetchInterval_ignores_JobState (o : gmap string jsval) :
  refetchInterval (Some (<["status" := JStr "cancelled"]> o)) = Every 2000
  ∧ refetchInterval (Some (<["status" := JStr "Cancelled"]> o)) = Every 2000
  ∧ (∀ s : JobState,
       refetchInterval (Some (<["status" := JStr (JobState_str s)]> o)) = Every 2000)
  ∧ refetchInterval (Some (<["status" := JStr "Completed"]> o)) = NoRefetch
  ∧ refetchInterval (Some (<["status" := JStr "Failed"]> o)) = NoRefetch.
Proof.
  unfold refetchInterval, opt_chain, prop.
  repeat split; try intros s; rewrite lookup_insert_eq; try destruct s; reflexivity.
Qed.

End PollingFacts.

(** ** [getJobStatus] *)

Module FetchFacts.
Import Api Fetch.












End FetchFacts.

(** * Further properties *)

(** ** URL helpers *)

Module UrlFacts.
Import Str StrFacts Api.

(** The path [getFileUrl] appends to the base for a local file. *)
Definition relativePath (normalized : string) : string :=
  match indexOf normalized "/data/" with
  | Some i => slice normalized i
  | None =>
      match indexOf normalized "/storage/" with
      | Some j => slice normalized j
      | None => if negb (startsWith normalized "/") then "/" ++ normalized else normalized
      end
  end.

Lemma relativePath_absolute n : startsWith (relativePath n) "/" = true.
Proof.
  unfold relativePath.
  destruct (indexOf n "/data/") as [i|] eqn:Hd.
  - apply indexOf_first in Hd as [Hd _]. exact (startsWith_slash _ _ _ Hd).
  - destruct (indexOf n "/storage/") as [j|] eqn:Hs.
    + apply indexOf_first in Hs as [Hs _]. exact (startsWith_slash _ _ _ Hs).
    + destruct (startsWith n "/") eqn:Habs; simpl; [exact Habs|].
      change (startsWith (String "/" n) "/" = true). apply startsWith_nil.
Qed.

Lemma joinUrl_slash base rel :
  startsWith rel "/" = true → joinUrl base rel = base ++ rel.
Proof.
  intros H. unfold joinUrl. rewrite H.
  apply startsWith_head in H as [rel' ->]. reflexivity.
Qed.

Lemma getFileUrl_local env p :
  p ≠ "" → startsWith p "http://" = false → startsWith p "https://" = false →
  getFileUrl env (Some p) = getApiBaseUrl env ++ relativePath (replace_backslashes p).
Proof.
  intros Hne H1 H2. unfold getFileUrl.
  destruct (String.eqb_spec p ""); [contradiction|].
  rewrite H1, H2. simpl orb. cbv iota.
  rewrite <- (joinUrl_slash _ _ (relativePath_absolute (replace_backslashes p))).
  reflexivity.
Qed.

Lemma getFileUrl_remote env p :
  startsWith p "http://" = true ∨ startsWith p "https://" = true →
  getFileUrl env (Some p) = p.
Proof.
  intros H. unfold getFileUrl.
  destruct (String.eqb_spec p "") as [->|_]; [destruct H; discriminate|].
  destruct H as [-> | ->]; [reflexivity | rewrite orb_true_r; reflexivity].
Qed.

Lemma append_nonempty_r a b : b ≠ "" → a ++ b ≠ "".
Proof.
  intros Hb. destruct a; [exact Hb | discriminate].
Qed.

Lemma startsWith_nonempty s c p : startsWith s (String c p) = true → s ≠ "".
Proof. intros [s' ->]%startsWith_head. discriminate. Qed.

Lemma startsWith_append s t p :
  startsWith s p = true → startsWith (s ++ t) p = true.
Proof.
  revert s. induction p as [|c p IH]; intros s; [intros _; apply startsWith_nil|].
  destruct s as [|d s]; [discriminate|].
  simpl. intros [-> H]%andb_true_iff. rewrite (IH _ H). reflexivity.
Qed.

(** X1.  [getFileUrl] gives the empty string only for a missing or empty
    path: a path that is there always gets a non-empty URL, whatever the
    configured base. *)
Theorem getFileUrl_empty_iff (env : ProcessEnv) (path : option string) :
  getFileUrl env path = "" ↔ path = None ∨ path = Some "".
Proof.
  split; [|intros [->| ->]; reflexivity].
  destruct path as [p|]; [|auto].
  destruct (String.eqb_spec p "") as [->|Hne]; [auto|].
  intros Hempty. exfalso.
  destruct (startsWith p "http://") eqn:H1.
  { rewrite getFileUrl_remote in Hempty by auto. contradiction. }
  destruct (startsWith p "https://") eqn:H2.
  { rewrite getFileUrl_remote in Hempty by auto. contradiction. }
  rewrite (getFileUrl_local env p Hne H1 H2) in Hempty.
  revert Hempty. apply append_nonempty_r.
  exact (startsWith_nonempty _ _ _ (relativePath_absolute _)).
Qed.

(** X2.  When the API base URL itself starts with [http://] or
    [https://], [getFileUrl] is idempotent: a URL it has produced passes
    through it unchanged. *)
Theorem getFileUrl_idempotent (env : ProcessEnv) (path : option string) :
  startsWith (getApiBaseUrl env) "http://" = true
  ∨ startsWith (getApiBaseUrl env) "https://" = true →
  getFileUrl env (Some (getFileUrl env path)) = getFileUrl env path.
Proof.
  intros Hbase.
  destruct path as [p|]; [|reflexivity].
  destruct (String.eqb_spec p "") as [->|Hne]; [reflexivity|].
  destruct (startsWith p "http://") eqn:H1.
  { rewrite (getFileUrl_remote env p) by auto. apply getFileUrl_remote. auto. }
  destruct (startsWith p "https://") eqn:H2.
  { rewrite (getFileUrl_remote env p) by auto. apply getFileUrl_remote. auto. }
  rewrite (getFileUrl_local env p Hne H1 H2).
  apply getFileUrl_remote.
  destruct Hbase as [H|H]; [left|right]; apply startsWith_append, H.
Qed.

Lemma getFileUrl_idempotent_witness :
  getFileUrl {| NEXT_PUBLIC_API_URL := None |}
    (Some (getFileUrl {| NEXT_PUBLIC_API_URL := None |} (Some "data\images\s1.png")))
  = "http://localhost:8000/data/images/s1.png".
Proof.
  rewrite (getFileUrl_idempotent {| NEXT_PUBLIC_API_URL := None |}
             (Some "data\images\s1.png")); [reflexivity|].
  left. reflexivity.
Defined.

Lemma replace_backslashes_idempotent s :
  replace_backslashes (replace_backslashes s) = replace_backslashes s.
Proof.
  induction s as [|c s IH]; [reflexivity|].
  simpl. rewrite IH. f_equal.
  destruct (Ascii.eqb c "\"%char) eqn:E; [reflexivity | rewrite E; reflexivity].
Qed.

Lemma replace_backslashes_empty s : replace_backslashes s = "" → s = "".
Proof. destruct s; [reflexivity | discriminate]. Qed.

(** A prefix without backslashes survives the replacement. *)
Lemma startsWith_replace_backslashes s p :
  replace_backslashes p = p → startsWith s p = true →
  startsWith (replace_backslashes s) p = true.
Proof.
  revert s. induction p as [|c p IH]; intros s Hp; [intros _; apply startsWith_nil|].
  destruct s as [|d s]; [discriminate|].
  simpl in Hp. injection Hp as Hc Hp.
  simpl. intros [->%Ascii.eqb_eq H]%andb_true_iff.
  rewrite Hc, Ascii.eqb_refl. simpl. apply IH; assumption.
Qed.

(** X3.  [getFileUrl] does not care how a local path spells its
    separators: the path with every backslash already turned into a slash
    gets the same URL, provided that spelling is not an [http(s)://] URL. *)
Theorem getFileUrl_separator_insensitive (env : ProcessEnv) (p : string) :
  startsWith (replace_backslashes p) "http://" = false →
  startsWith (replace_backslashes p) "https://" = false →
  getFileUrl env (Some (replace_backslashes p)) = getFileUrl env (Some p).
Proof.
  intros H1 H2.
  destruct (String.eqb_spec p "") as [->|Hne]; [reflexivity|].
  assert (startsWith p "http://" = false) as H1'.
  { destruct (startsWith p "http://") eqn:E; [|reflexivity].
    rewrite (startsWith_replace_backslashes p "http://" eq_refl E) in H1. discriminate. }
  assert (startsWith p "https://" = false) as H2'.
  { destruct (startsWith p "https://") eqn:E; [|reflexivity].
    rewrite (startsWith_replace_backslashes p "https://" eq_refl E) in H2. discriminate. }
  rewrite (getFileUrl_local env p Hne H1' H2').
  rewrite (getFileUrl_local env (replace_backslashes p)); try assumption.
  - rewrite replace_backslashes_idempotent. reflexivity.
  - intros Hempty. apply Hne, replace_backslashes_empty, Hempty.
Qed.

Lemma getFileUrl_separator_insensitive_witness :
  getFileUrl {| NEXT_PUBLIC_API_URL := None |} (Some "C:/app/storage/outputs/j1/final.mp4")
  = getFileUrl {| NEXT_PUBLIC_API_URL := None |} (Some "C:\app\storage\outputs\j1\final.mp4").
Proof.
  apply (getFileUrl_separator_insensitive {| NEXT_PUBLIC_API_URL := None |}
           "C:\app\storage\outputs\j1\final.mp4"); reflexivity.
Defined.

(** X4.  [joinUrl] puts exactly one slash between base and path: a
    non-empty relative path and the same path with a slash in front join to
    the same URL, the base, a slash and the path. *)
Theorem joinUrl_one_slash (base p : string) :
  p ≠ "" → startsWith p "/" = false →
  joinUrl base p = base ++ "/" ++ p
  ∧ joinUrl base ("/" ++ p) = joinUrl base p.
Proof.
  intros Hne Hrel.
  assert (joinUrl base p = base ++ "/" ++ p) as Hp.
  { unfold joinUrl. destruct (String.eqb_spec p ""); [contradiction|].
    rewrite Hrel. reflexivity. }
  split; [exact Hp|]. rewrite Hp.
  apply joinUrl_slash.
  change (startsWith (String "/" p) "/" = true). apply startsWith_nil.
Qed.

Lemma joinUrl_one_slash_witness :
  joinUrl "http://localhost:8000" "api/v1/process" = "http://localhost:8000/api/v1/process"
  ∧ joinUrl "http://localhost:8000" "/api/v1/process"
    = joinUrl "http://localhost:8000" "api/v1/process".
Proof.
  apply (joinUrl_one_slash "http://localhost:8000" "api/v1/process");
    [discriminate | reflexivity].
Defined.

(** The last character of a string. *)
Fixpoint last_char (s : string) : option ascii :=
  match s with
  | EmptyString => None
  | String c EmptyString => Some c
  | String _ s' => last_char s'
  end.

Lemma last_char_append_slash t : last_char (t ++ "/") = Some "/"%char.
Proof.
  induction t as [|c t IH]; [reflexivity|].
  change (String c t ++ "/") with (String c (t ++ "/")).
  simpl. rewrite IH. destruct (t ++ "/") eqn:E; [|reflexivity].
  destruct t; discriminate.
Qed.

Lemma strip_trailing_slash_append u : strip_trailing_slash (u ++ "/") = u.
Proof.
  induction u as [|c u IH]; [reflexivity|].
  change (String c u ++ "/") with (String c (u ++ "/")).
  simpl. rewrite IH. destruct u; reflexivity.
Qed.

(** X5.  [getApiBaseUrl] removes exactly one trailing slash: configured as
    [u] followed by a slash it gives [u] (the empty base for a lone slash,
    one slash left of two); configured as a non-empty [u] without a
    trailing slash it gives [u] itself. *)
Theorem getApiBaseUrl_one_trailing_slash (u : string) :
  getApiBaseUrl {| NEXT_PUBLIC_API_URL := Some (u ++ "/") |} = u
  ∧ (u ≠ "" → (∀ t, u ≠ t ++ "/") →
     getApiBaseUrl {| NEXT_PUBLIC_API_URL := Some u |} = u).
Proof.
  split.
  - unfold getApiBaseUrl. simpl.
    destruct (String.eqb_spec (u ++ "/") "") as [Hempty|_].
    + exfalso. revert Hempty. apply append_nonempty_r. discriminate.
    + apply strip_trailing_slash_append.
  - intros Hne Hno. unfold getApiBaseUrl. simpl.
    destruct (String.eqb_spec u ""); [contradiction|].
    apply strip_trailing_slash_noop, Hno.
Qed.

Lemma getApiBaseUrl_one_trailing_slash_witness :
  getApiBaseUrl {| NEXT_PUBLIC_API_URL := Some "https://api.example.org/" |}
    = "https://api.example.org"
  ∧ getApiBaseUrl {| NEXT_PUBLIC_API_URL := Some "https://api.example.org" |}
    = "https://api.example.org".
Proof.
  destruct (getApiBaseUrl_one_trailing_slash "https://api.example.org") as [H1 H2].
  split; [exact H1|]. apply H2; [discriminate|].
  intros t Ht. pose proof (last_char_append_slash t) as Hlast.
  rewrite <- Ht in Hlast. vm_compute in Hlast. discriminate.
Defined.

End UrlFacts.

(** ** Requests *)

Module RequestFacts.
Import Str StrFacts Api Fetch Results FetchFacts.




End RequestFacts.

(** ** The processing page *)

Module PageFacts.
Import Api Wire UseJobStatus Page MergeFacts WireFacts.

(** X7.  Polling and the page agree on the two capitalised terminal
    statuses: whenever the poll hook's own result has stopped the polling,
    and the push hook holds no truthy status to put in front of it, the
    merged status is a completed or a failed one. *)
Theorem polling_stopped_is_terminal_view
    (poll : gmap string jsval) (wsStatus : option (gmap string jsval)) :
  refetchInterval (Some poll) = NoRefetch →
  truthy (opt_chain wsStatus "status") = false →
  isCompleted (status (Some poll) wsStatus) || isFailed (status (Some poll) wsStatus) = true.
Proof.
  intros Hstop Hws.
  apply PollingFacts.refetchInterval_stops in Hstop.
  unfold isCompleted, isFailed.
  rewrite (prop_lookup _ _ _ (status_status (Some poll) wsStatus)).
  unfold merged_status.
  rewrite (js_or_falsy (opt_chain wsStatus "status")) by exact Hws.
  destruct Hstop as [-> | ->]; reflexivity.
Qed.

Lemma polling_stopped_is_terminal_view_witness :
  isCompleted (status (Some {[ "status" := JStr "Completed" ]}) None)
  || isFailed (status (Some {[ "status" := JStr "Completed" ]}) None) = true.
Proof.
  apply (polling_stopped_is_terminal_view {[ "status" := JStr "Completed" ]} None);
    reflexivity.
Defined.

(** X8.  Which view [render] returns tells what held: the loading view
    only while loading with no snapshot at all; the error view only for a
    non-empty poll error while no retry is pending; the failed view only
    for a failed status while no retry is pending; the completed view only
    for a completed status; the processing view only for a status that is
    not completed and, if failed, while a retry is pending; and a status is
    never both completed and failed. *)
Theorem render_view_sound (isLoading : bool)
    (pollStatus wsStatus : option (gmap string jsval))
    (error : option string) (st : RetryState) :
  match render isLoading pollStatus wsStatus error st with
  | LoadingView => isLoading = true ∧ pollStatus = None ∧ wsStatus = None
  | ErrorView message => error = Some message ∧ message ≠ "" ∧ wsRetrying st = false
  | FailedView =>
      isFailed (status pollStatus wsStatus) = true ∧ wsRetrying st = false
      ∧ isCompleted (status pollStatus wsStatus) = false
  | CompletedView =>
      isCompleted (status pollStatus wsStatus) = true
      ∧ isFailed (status pollStatus wsStatus) = false
  | ProcessingView =>
      isCompleted (status pollStatus wsStatus) = false
      ∧ (isFailed (status pollStatus wsStatus) = true → wsRetrying st = true)
  end.
Proof.
  assert (isCompleted (status pollStatus wsStatus) = true →
          isFailed (status pollStatus wsStatus) = false) as Hexcl.
  { unfold isCompleted, isFailed.
    destruct (prop (status pollStatus wsStatus) "status") as [| | | |t| |];
      try discriminate. simpl.
    intros [->%String.eqb_eq | ->%String.eqb_eq]%orb_true_iff; reflexivity. }
  assert (isFailed (status pollStatus wsStatus) = true →
          isCompleted (status pollStatus wsStatus) = false) as Hexcl'.
  { intros Hf. destruct (isCompleted _) eqn:Hc; [|reflexivity].
    rewrite (Hexcl eq_refl) in Hf. discriminate. }
  unfold render.
  destruct isLoading, pollStatus as [p|], wsStatus as [w|]; simpl;
    try (split; [reflexivity | split; reflexivity]).
  all: destruct error as [e|];
    [ destruct (String.eqb_spec e ""); simpl;
      destruct (wsRetrying st); simpl | ];
    rewrite ?andb_false_r, ?andb_true_r;
    try destruct (isFailed _) eqn:Hf; simpl;
    try destruct (wsRetrying st) eqn:Hr; simpl;
    try destruct (isCompleted _) eqn:Hc; simpl;
    auto; try (rewrite (Hexcl eq_refl) in Hf; discriminate);
    try (split; [reflexivity | discriminate]).
Qed.

(** *** The retry counter *)

(** Mounting under [reactStrictMode]: the effect runs, is cleaned up and
    runs again before the first timeout fires. *)
Definition strict_mode_events : list event :=
  [EffectRuns false None None (Some "Job not found"); CleanupRuns;
   EffectRuns false None None (Some "Job not found"); TimerFires].

(** X9.  Whatever happens to the component, the counter behind
    "Attempt n/3" is never behind the number of re-subscriptions and never
    above 3; it can be ahead, since every run of the effect that arms a
    timeout counts, and a run can be repeated without a re-subscription
    (as when mounting under strict mode: counter 2 after one
    re-subscription). *)
Theorem retryCount_bounds (events : list event) :
  (wsRetry (cells (run events)) ≤ retryCount (cells (run events)) ≤ 3)%Z
  ∧ (0 ≤ wsRetry (cells (run events)))%Z
  ∧ retryCount (cells (run strict_mode_events)) = 2%Z
  ∧ wsRetry (cells (run strict_mode_events)) = 1%Z.
Proof.
  destruct (RetryFacts.invariant_run events) as [Hf _ Hc _ _].
  unfold jobNotFoundMaxRetries in Hc.
  split; [exact Hc|]. split; [lia|]. split; reflexivity.
Qed.

(** *** More on the merged object *)

(** X10.  The merged object always has the members [status], [progress]
    and [slides_progress], and apart from them exactly the members of the
    two snapshots. *)
Theorem status_members (pollStatus wsStatus : option (gmap string jsval)) :
  dom (status pollStatus wsStatus)
  = ({[ "progress"; "status"; "slides_progress" ]} : gset string)
    ∪ dom (spread wsStatus) ∪ dom (spread pollStatus).
Proof.
  unfold status. rewrite !dom_insert_L, dom_union_L.
  apply set_eq. intros k. rewrite !elem_of_union, !elem_of_singleton. tauto.
Qed.

Lemma js_or_same (x fallback : jsval) :
  js_or (js_or x x) fallback = js_or (js_or JUndefined x) fallback
  ∧ js_or (js_or x x) fallback = js_or (js_or x JUndefined) fallback.
Proof. unfold js_or. destruct (truthy x) eqn:E; simpl; rewrite ?E; auto. Qed.

(** X11.  When both hooks hold the same snapshot, the merged object is the
    one either hook alone would give. *)
Theorem status_of_equal_snapshots (o : gmap string jsval) :
  status (Some o) (Some o) = status (Some o) None
  ∧ status (Some o) (Some o) = status None (Some o).
Proof.
  unfold status, merged_progress, merged_status, merged_slides_progress.
  simpl.
  rewrite (idemp_L (∪) o), (left_id_L ∅ (∪) o), (right_id_L ∅ (∪) o).
  split.
  - rewrite !(proj1 (js_or_same _ _)). reflexivity.
  - rewrite !(proj2 (js_or_same _ _)). reflexivity.
Qed.

(** X12.  A falsy value in the push snapshot (null, 0, the empty string)
    still replaces the poll result's value for an ordinary member, but for
    [status], [progress] and [slides_progress] it gives way to a truthy
    value of the poll result. *)
Theorem falsy_push_value (poll push : gmap string jsval) (k : string) (v : jsval) :
  push !! k = Some v → truthy v = false →
  (k ∉ overridden → status (Some poll) (Some push) !! k = Some v)
  ∧ (k ∈ overridden → ∀ pv, poll !! k = Some pv → truthy pv = true →
     status (Some poll) (Some push) !! k = Some pv).
Proof.
  intros Hk Hv. split.
  - intros Hout. rewrite status_other by exact Hout. simpl.
    apply lookup_union_Some_l, Hk.
  - intros Hin pv Hpk Hpv.
    destruct (status_member (Some poll) (Some push) k Hin) as [fallback ->].
    f_equal. simpl. rewrite (prop_lookup _ _ _ Hk), (prop_lookup _ _ _ Hpk).
    rewrite (js_or_falsy v) by exact Hv. apply js_or_truthy, Hpv.
Qed.

Lemma falsy_push_value_witness :
  status (Some {[ "error" := JStr "disk full"; "progress" := JNum 80 ]})
         (Some {[ "error" := JNull; "progress" := JNum 0 ]}) !! "error" = Some JNull
  ∧ status (Some {[ "error" := JStr "disk full"; "progress" := JNum 80 ]})
           (Some {[ "error" := JNull; "progress" := JNum 0 ]}) !! "progress"
    = Some (JNum 80).
Proof.
  split.
  - destruct (falsy_push_value {[ "error" := JStr "disk full"; "progress" := JNum 80 ]}
                {[ "error" := JNull; "progress" := JNum 0 ]} "error" JNull)
      as [Hord _]; [reflexivity | reflexivity |].
    apply Hord. unfold overridden. rewrite !not_elem_of_cons.
    repeat split; try discriminate. apply not_elem_of_nil.
  - destruct (falsy_push_value {[ "error" := JStr "disk full"; "progress" := JNum 80 ]}
                {[ "error" := JNull; "progress" := JNum 0 ]} "progress" (JNum 0))
      as [_ Hover]; [reflexivity | reflexivity |].
    apply Hover; [|reflexivity|reflexivity].
    unfold overridden. rewrite !elem_of_cons. auto.
Defined.

Lemma has_JobStatus_progress (o : gmap string jsval) :
  has_JobStatus o = true → ∃ n : Z, prop o "progress" = JNum n.
Proof.
  unfold has_JobStatus. rewrite !andb_true_iff.
  intros [[[[[[[[[[_ _] Hpr] _] _] _] _] _] _] _] _].
  apply required_inv in Hpr as (v & Hv & [n ->]%is_number_inv).
  exists n. apply prop_lookup, Hv.
Qed.

Lemma has_JobStatus_slides_progress (o : gmap string jsval) :
  has_JobStatus o = true →
  prop o "slides_progress" = JUndefined ∨ ∃ items, prop o "slides_progress" = JArr items.
Proof.
  unfold has_JobStatus. rewrite !andb_true_iff.
  intros [[[[[[[[[[_ _] _] _] _] _] Hsp] _] _] _] _].
  unfold prop. destruct (o !! "slides_progress") as [v|] eqn:Hv; [|auto].
  destruct (optional_inv _ _ _ _ Hsp Hv) as [->|Harr]; [auto|].
  destruct v; try discriminate. simpl. eauto.
Qed.

(** X13.  When the snapshots the hooks hold have the declared [JobStatus]
    shape, the progress the page shows is always a number and the merged
    [slides_progress] is always an array, with or without snapshots. *)
Theorem shown_values_well_typed (pollStatus wsStatus : option (gmap string jsval)) :
  (∀ o, pollStatus = Some o → has_JobStatus o = true) →
  (∀ o, wsStatus = Some o → has_JobStatus o = true) →
  (∃ n : Z, shown_progress pollStatus wsStatus = JNum n)
  ∧ (∃ items, prop (status pollStatus wsStatus) "slides_progress" = JArr items).
Proof.
  intros Hpoll Hws.
  assert (∀ x : option (gmap string jsval),
            (∀ o, x = Some o → has_JobStatus o = true) →
            opt_chain x "progress" = JUndefined ∨ ∃ n : Z, opt_chain x "progress" = JNum n)
    as Hnum.
  { intros [o|] Hx; [|auto]. right. apply has_JobStatus_progress, Hx. reflexivity. }
  assert (∀ x : option (gmap string jsval),
            (∀ o, x = Some o → has_JobStatus o = true) →
            opt_chain x "slides_progress" = JUndefined
            ∨ ∃ items, opt_chain x "slides_progress" = JArr items) as Harr.
  { intros [o|] Hx; [|auto]. apply has_JobStatus_slides_progress, Hx. reflexivity. }
  split.
  - unfold shown_progress.
    rewrite (prop_lookup _ _ _ (status_progress _ _)). unfold merged_progress, js_or.
    destruct (Hnum wsStatus Hws) as [-> | [n ->]], (Hnum pollStatus Hpoll) as [-> | [m ->]];
      simpl; repeat (destruct (_ =? 0)%Z; simpl); eauto.
  - rewrite (prop_lookup _ _ _ (status_slides_progress _ _)).
    unfold merged_slides_progress, js_or.
    destruct (Harr wsStatus Hws) as [-> | [n ->]], (Harr pollStatus Hpoll) as [-> | [m ->]];
      simpl; eauto.
Qed.

Lemma shown_values_well_typed_witness :
  ∃ n : Z, shown_progress (Some documented_status) None = JNum n.
Proof.
  destruct (shown_values_well_typed (Some documented_status) None) as (Hn & _).
  - intros o [= <-]. vm_compute. reflexivity.
  - intros o [=].
  - exact Hn.
Defined.

End PageFacts.

(** ** More on the slide viewer *)

Module NavigationFacts.
Import SlideViewer SlideViewerFacts.

(** X14.  For an index in range, a navigation button is disabled exactly
    when clicking it would leave the index where it is: previous at index
    0, next at the last index. *)
Theorem disabled_iff_no_move {SlideResult : Type} (slides : list SlideResult) (i : Z) :
  (0 ≤ i ≤ length_of slides - 1)%Z →
  (SlideContent.previousDisabled i = true ↔ goToPrevious i = i)
  ∧ (SlideContent.nextDisabled slides i = true ↔ goToNext slides i = i).
Proof.
  intros Hi. unfold SlideContent.previousDisabled, SlideContent.nextDisabled.
  rewrite !Z.eqb_eq. unfold goToPrevious, goToNext. split; split; lia.
Qed.

Lemma disabled_iff_no_move_witness :
  SlideContent.previousDisabled 0 = true ∧ goToNext ["s1"; "s2"; "s3"] 2 = 2%Z.
Proof.
  destruct (disabled_iff_no_move ["s1"; "s2"; "s3"] 0) as [[_ Hprev] _];
    [unfold length_of; simpl; lia |].
  destruct (disabled_iff_no_move ["s1"; "s2"; "s3"] 2) as [_ [Hnext _]];
    [unfold length_of; simpl; lia |].
  split; [apply Hprev | apply Hnext]; reflexivity.
Defined.

(** X15.  Next and previous undo each other wherever the first of the two
    moves: next then previous from any index but the last, previous then
    next from any index but the first. *)
Theorem next_previous_round_trip {SlideResult : Type} (slides : list SlideResult) (i : Z) :
  (0 ≤ i ≤ length_of slides - 1)%Z →
  (i ≠ (length_of slides - 1)%Z → goToPrevious (goToNext slides i) = i)
  ∧ (i ≠ 0%Z → goToNext slides (goToPrevious i) = i).
Proof.
  intros Hi. unfold goToPrevious, goToNext. split; lia.
Qed.

Lemma next_previous_round_trip_witness :
  goToPrevious (goToNext ["s1"; "s2"; "s3"] 1) = 1%Z
  ∧ goToNext ["s1"; "s2"; "s3"] (goToPrevious 1) = 1%Z.
Proof.
  destruct (next_previous_round_trip ["s1"; "s2"; "s3"] 1) as [Hnp Hpn];
    [unfold length_of; simpl; lia |].
  split; [apply Hnp | apply Hpn]; unfold length_of; simpl; lia.
Defined.

Lemma fold_next {SlideResult : Type} (slides : list SlideResult) (n : nat) (i : Z) :
  slides ≠ [] → (0 ≤ i ≤ length_of slides - 1)%Z →
  fold_left (step slides) (repeat Next n) i = Z.min (i + Z.of_nat n) (length_of slides - 1).
Proof.
  intros Hne. revert i. induction n as [|n IH]; intros i Hi.
  - simpl. lia.
  - change (repeat Next (S n)) with (Next :: repeat Next n).
    simpl fold_left. rewrite IH.
    + unfold goToNext. lia.
    + exact (step_in_bounds slides Hne i Next Hi).
Qed.

Lemma fold_previous {SlideResult : Type} (slides : list SlideResult) (n : nat) (i : Z) :
  (0 ≤ i)%Z →
  fold_left (step slides) (repeat Previous n) i = Z.max 0 (i - Z.of_nat n).
Proof.
  revert i. induction n as [|n IH]; intros i Hi.
  - simpl. lia.
  - change (repeat Previous (S n)) with (Previous :: repeat Previous n).
    simpl fold_left. rewrite IH; unfold goToPrevious; lia.
Qed.

(** X16.  Every slide can be reached and left again: from the first slide
    [n] clicks on next lead to slide [n], or to the last one if there are
    fewer slides; and after any clicks whatever, as many clicks on previous
    as there are slides lead back to the first slide. *)
Theorem every_slide_reachable {SlideResult : Type} (slides : list SlideResult)
    (n : nat) (ops : list nav) :
  slides ≠ [] →
  navigate slides (repeat Next n) = Z.min (Z.of_nat n) (length_of slides - 1)
  ∧ navigate slides (ops ++ repeat Previous (length slides)) = 0%Z.
Proof.
  intros Hne. unfold navigate. split.
  - rewrite (fold_next slides n initialSlide Hne).
    + unfold initialSlide. f_equal.
    + pose proof (length_of_pos slides Hne). unfold initialSlide. lia.
  - rewrite fold_left_app.
    assert (0 ≤ fold_left (step slides) ops initialSlide ≤ length_of slides - 1)%Z as Hb.
    { apply run_in_bounds; [exact Hne|].
      pose proof (length_of_pos slides Hne). unfold initialSlide. lia. }
    rewrite fold_previous by lia. unfold length_of in *. lia.
Qed.

Lemma every_slide_reachable_witness :
  navigate ["s1"; "s2"; "s3"] (repeat Next 2) = 2%Z
  ∧ navigate ["s1"; "s2"; "s3"] ([Next; Next] ++ repeat Previous 3) = 0%Z.
Proof.
  destruct (every_slide_reachable ["s1"; "s2"; "s3"] 2 [Next; Next]) as [Hn Hp];
    [discriminate|].
  split; [exact Hn | exact Hp].
Defined.

End NavigationFacts.

(** ** The download panel and the questions of a slide *)

Module DownloadFacts.
Import Api Fetch Results SlideContent DownloadPanel.

Lemma length_or_0_nonneg l : (0 ≤ length_or_0 l)%Z.
Proof. destruct l; simpl; lia. Qed.

Lemma length_or_0_default l : length_or_0 l = Z.of_nat (length (default [] l)).
Proof. destruct l; reflexivity. Qed.

(** X17.  The quiz download is offered exactly when the slide viewer has a
    question to show on some slide of the result. *)
Theorem hasMcqs_iff_viewer_shows_some (result : JobResult) :
  hasMcqs result = true ↔ ∃ slide, slide ∈ slides result ∧ slideMcqs (Some slide) ≠ [].
Proof.
  unfold hasMcqs. rewrite existsb_exists. split.
  - intros (slide & Hin & Hq). exists slide. split; [apply list_elem_of_In, Hin|].
    unfold slideMcqs. destruct (qa slide) as [q|]; [|discriminate].
    apply Z.ltb_lt in Hq. rewrite !length_or_0_default in Hq.
    intros Hnil. apply (f_equal length) in Hnil.
    rewrite !length_app in Hnil. simpl in Hnil. lia.
  - intros (slide & Hin & Hq). exists slide. split; [apply list_elem_of_In, Hin|].
    unfold slideMcqs in Hq. destruct (qa slide) as [q|]; [|contradiction].
    apply Z.ltb_lt. rewrite !length_or_0_default.
    destruct (default [] (easy q) ++ default [] (medium q) ++ default [] (hard q))%list
      eqn:E; [contradiction|].
    apply (f_equal length) in E. rewrite !length_app in E. simpl in E. lia.
Qed.




End DownloadFacts.

(** ** The status contract across the wire and through the merge *)

Module ContractFacts.
Import Api Wire Fetch Page MergeFacts WireFacts.

(** [has_JobStatus], one conjunct per declared member. *)
Lemma has_JobStatus_members (o : gmap string jsval) :
  has_JobStatus o = true ↔
    required is_string o "job_id" = true
    ∧ required is_JobState o "status" = true
    ∧ required is_number o "progress" = true
    ∧ optional (nullable is_number) o "current_slide" = true
    ∧ optional (nullable is_number) o "total_slides" = true
    ∧ optional (nullable is_string) o "current_step" = true
    ∧ optional is_SlideProgress_array o "slides_progress" = true
    ∧ optional (nullable is_string) o "error" = true
    ∧ optional is_string o "created_at" = true
    ∧ optional is_string o "updated_at" = true
    ∧ optional (nullable is_string) o "completed_at" = true.
Proof. unfold has_JobStatus. rewrite !andb_true_iff. tauto. Qed.

(** A snapshot a hook holds, if it holds one, has the declared shape. *)
Definition well_shaped (x : option (gmap string jsval)) : Prop :=
  ∀ o, x = Some o → has_JobStatus o = true.

Lemma optional_spread p (x : option (gmap string jsval)) k :
  (∀ o, x = Some o → optional p o k = true) → optional p (spread x) k = true.
Proof.
  destruct x as [o|]; simpl; [auto|].
  intros _. unfold optional. rewrite lookup_empty. reflexivity.
Qed.

Lemma optional_union p (a b : gmap string jsval) k :
  optional p a k = true → optional p b k = true → optional p (a ∪ b) k = true.
Proof.
  unfold optional. intros Ha Hb.
  destruct (a !! k) as [v|] eqn:Hk.
  - rewrite (lookup_union_Some_l a b k v Hk). exact Ha.
  - rewrite (lookup_union_r a b k Hk). exact Hb.
Qed.

Lemma required_union p (a b : gmap string jsval) k :
  required p a k = true ∨ (a !! k = None ∧ required p b k = true) →
  required p (a ∪ b) k = true.
Proof.
  unfold required. intros [Ha | [Hk Hb]].
  - destruct (a !! k) as [v|] eqn:Hk; [|discriminate].
    rewrite (lookup_union_Some_l a b k v Hk). exact Ha.
  - rewrite (lookup_union_r a b k Hk). exact Hb.
Qed.

(** A member the literal does not set is looked up in the two spreads. *)
Lemma optional_status p (pollStatus wsStatus : option (gmap string jsval)) k :
  k ∉ overridden →
  (∀ o, pollStatus = Some o → optional p o k = true) →
  (∀ o, wsStatus = Some o → optional p o k = true) →
  optional p (status pollStatus wsStatus) k = true.
Proof.
  intros Hk Hpoll Hws.
  assert (optional p (spread wsStatus ∪ spread pollStatus) k = true) as H
    by (apply optional_union; apply optional_spread; assumption).
  unfold optional in *. rewrite status_other by exact Hk. exact H.
Qed.

Lemma not_overridden k :
  k ≠ "slides_progress" → k ≠ "status" → k ≠ "progress" → k ∉ overridden.
Proof.
  intros H1 H2 H3. unfold overridden. rewrite !not_elem_of_cons.
  repeat split; try assumption. apply not_elem_of_nil.
Qed.

Lemma is_JobState_str s : is_JobState (JStr (JobState_str s)) = true.
Proof. destruct s; vm_compute; reflexivity. Qed.

Lemma merged_status_shape (pollStatus wsStatus : option (gmap string jsval)) :
  well_shaped pollStatus → well_shaped wsStatus →
  is_Some pollStatus ∨ is_Some wsStatus →
  is_JobState (merged_status pollStatus wsStatus) = true.
Proof.
  intros Hpoll Hws Hsome. unfold merged_status.
  assert (∀ o, has_JobStatus o = true →
            ∃ s, prop o "status" = JStr (JobState_str s)) as Hst.
  { intros o (_ & Hs & _)%has_JobStatus_members.
    apply required_inv in Hs as (v & Hv & [s ->]%is_JobState_inv).
    exists s. apply prop_lookup, Hv. }
  destruct wsStatus as [w|].
  - destruct (Hst w (Hws w eq_refl)) as [s Hs]. simpl opt_chain. rewrite Hs.
    rewrite (js_or_truthy (JStr (JobState_str s)) (opt_chain pollStatus "status"))
      by apply JobState_str_truthy.
    rewrite js_or_truthy by apply JobState_str_truthy. apply is_JobState_str.
  - destruct Hsome as [[o ->]|[? [=]]].
    destruct (Hst o (Hpoll o eq_refl)) as [s Hs]. simpl opt_chain. rewrite Hs.
    rewrite (js_or_falsy JUndefined) by reflexivity.
    rewrite js_or_truthy by apply JobState_str_truthy. apply is_JobState_str.
Qed.

Lemma merged_progress_shape (pollStatus wsStatus : option (gmap string jsval)) :
  well_shaped pollStatus → well_shaped wsStatus →
  is_number (merged_progress pollStatus wsStatus) = true.
Proof.
  intros Hpoll Hws. unfold merged_progress.
  assert (∀ x, well_shaped x →
            opt_chain x "progress" = JUndefined ∨ ∃ n : Z, opt_chain x "progress" = JNum n)
    as Hnum.
  { intros [o|] Hx; [|auto]. right.
    destruct (proj1 (has_JobStatus_members o) (Hx o eq_refl)) as (_ & _ & Hp & _).
    apply required_inv in Hp as (v & Hv & [n ->]%is_number_inv).
    exists n. simpl. apply prop_lookup, Hv. }
  unfold js_or.
  destruct (Hnum wsStatus Hws) as [-> | [n ->]], (Hnum pollStatus Hpoll) as [-> | [m ->]];
    simpl; repeat (destruct (_ =? 0)%Z; simpl); reflexivity.
Qed.

Lemma merged_slides_progress_shape (pollStatus wsStatus : option (gmap string jsval)) :
  well_shaped pollStatus → well_shaped wsStatus →
  is_SlideProgress_array (merged_slides_progress pollStatus wsStatus) = true.
Proof.
  intros Hpoll Hws. unfold merged_slides_progress.
  assert (∀ x, well_shaped x →
            opt_chain x "slides_progress" = JUndefined
            ∨ (truthy (opt_chain x "slides_progress") = true
               ∧ is_SlideProgress_array (opt_chain x "slides_progress") = true)) as Harr.
  { intros [o|] Hx; [|auto]. simpl.
    destruct (proj1 (has_JobStatus_members o) (Hx o eq_refl))
      as (_ & _ & _ & _ & _ & _ & Hsp & _).
    unfold prop. destruct (o !! "slides_progress") as [v|] eqn:Hv; [|auto].
    destruct (optional_inv _ _ _ _ Hsp Hv) as [->|Hv']; [auto|].
    right. simpl. destruct v; try discriminate. auto. }
  destruct (Harr wsStatus Hws) as [-> | [Htw Hw]].
  - rewrite (js_or_falsy JUndefined) by reflexivity.
    destruct (Harr pollStatus Hpoll) as [-> | [Htp Hp]].
    + reflexivity.
    + rewrite js_or_truthy by exact Htp. exact Hp.
  - rewrite (js_or_truthy (opt_chain wsStatus "slides_progress")) by exact Htw.
    rewrite js_or_truthy by exact Htw. exact Hw.
Qed.

Lemma merged_job_id (pollStatus wsStatus : option (gmap string jsval)) :
  well_shaped pollStatus → well_shaped wsStatus →
  is_Some pollStatus ∨ is_Some wsStatus →
  required is_string (status pollStatus wsStatus) "job_id" = true.
Proof.
  intros Hpoll Hws Hsome.
  assert (required is_string (spread wsStatus ∪ spread pollStatus) "job_id" = true) as H.
  { apply required_union. destruct wsStatus as [w|]; simpl.
    - left. apply (has_JobStatus_members w), Hws. reflexivity.
    - right. split; [apply lookup_empty|].
      destruct Hsome as [[o ->]|[? [=]]]. simpl.
      apply (has_JobStatus_members o), Hpoll. reflexivity. }
  unfold required in *.
  rewrite status_other by (apply not_overridden; discriminate). exact H.
Qed.

(** The merge keeps the declared shape. *)
Lemma status_has_JobStatus (pollStatus wsStatus : option (gmap string jsval)) :
  well_shaped pollStatus → well_shaped wsStatus →
  is_Some pollStatus ∨ is_Some wsStatus →
  has_JobStatus (status pollStatus wsStatus) = true.
Proof.
  intros Hpoll Hws Hsome.
  assert (∀ p k, k ∉ overridden →
            (∀ o, has_JobStatus o = true → optional p o k = true) →
            optional p (status pollStatus wsStatus) k = true) as Hopt.
  { intros p k Hk Hmember. apply optional_status; [exact Hk|..]; intros o Ho;
      apply Hmember; [apply Hpoll | apply Hws]; exact Ho. }
  apply has_JobStatus_members. repeat split.
  - apply merged_job_id; assumption.
  - unfold required. rewrite status_status. apply merged_status_shape; assumption.
  - unfold required. rewrite status_progress. apply merged_progress_shape; assumption.
  - apply Hopt; [apply not_overridden; discriminate|].
    intros o Ho. apply (has_JobStatus_members o), Ho.
  - apply Hopt; [apply not_overridden; discriminate|].
    intros o Ho. apply (has_JobStatus_members o), Ho.
  - apply Hopt; [apply not_overridden; discriminate|].
    intros o Ho. apply (has_JobStatus_members o), Ho.
  - unfold optional. rewrite status_slides_progress.
    pose proof (merged_slides_progress_shape pollStatus wsStatus Hpoll Hws) as Harr.
    destruct (merged_slides_progress pollStatus wsStatus); try discriminate. exact Harr.
  - apply Hopt; [apply not_overridden; discriminate|].
    intros o Ho. apply (has_JobStatus_members o), Ho.
  - apply Hopt; [apply not_overridden; discriminate|].
    intros o Ho. apply (has_JobStatus_members o), Ho.
  - apply Hopt; [apply not_overridden; discriminate|].
    intros o Ho. apply (has_JobStatus_members o), Ho.
  - apply Hopt; [apply not_overridden; discriminate|].
    intros o Ho. apply (has_JobStatus_members o), Ho.
Qed.

(** C5, as stated, fails: [getJobStatus] hands on the status response
    documented in [docs/api.md] as it is, and that object has no [mode]
    member (the interface declares none), its per-slide entry has no member
    named [quiz] or [render]; an object with a progress of 250, and the
    empty object, come through the same way. *)
Lemma status_crosses_unchecked :
  getJobStatus {| NEXT_PUBLIC_API_URL := None |}
    (λ _, Return {| ok := true; body := Some (JObj documented_status) |}) "uuid"
  = Return (JObj documented_status)
  ∧ documented_status !! "mode" = None
  ∧ ("mode" ∉ JobStatus_fields)
  ∧ documented_entry !! "quiz" = None
  ∧ documented_entry !! "render" = None
  ∧ ("quiz" ∉ SlideProgress_fields)
  ∧ ("render" ∉ SlideProgress_fields)
  ∧ getJobStatus {| NEXT_PUBLIC_API_URL := None |}
      (λ _, Return {| ok := true;
                      body := Some (JObj (<["progress" := JNum 250]> documented_status)) |})
      "uuid"
    = Return (JObj (<["progress" := JNum 250]> documented_status))
  ∧ has_JobStatus (<["progress" := JNum 250]> documented_status) = true
  ∧ getJobStatus {| NEXT_PUBLIC_API_URL := None |}
      (λ _, Return {| ok := true; body := Some (JObj ∅) |}) "uuid"
    = Return (JObj ∅).
Proof.
  repeat split; try reflexivity; try (vm_compute; reflexivity).
  all: unfold JobStatus_fields, SlideProgress_fields;
    rewrite !elem_of_cons, elem_of_nil;
    intros H; repeat destruct H as [H|H]; try discriminate; exact H.
Qed.

(** C5, amended.  A status object crosses the wire unchecked:
    [getJobStatus] returns whatever the body of an ok response decodes to.
    The contract is the declared [JobStatus] shape, and the page's merge
    keeps it: when the snapshots the hooks hold have that shape and at
    least one is there, the merged status object has it too, member by
    member as [declared_shape] spells out ([job_id], [status], [progress],
    the optional [current_slide], [total_slides], [current_step], [error]
    and timestamps, and [slides_progress] entries with [slide_number],
    [narration], [mcq] and [video]; no [mode]). *)
Theorem status_contract_kept (env : ProcessEnv) (fetch : string → outcome Response)
    (jobId : string) (pollStatus wsStatus : option (gmap string jsval)) :
  (∀ v, fetch (joinUrl (getApiBaseUrl env) (status_path jobId))
        = Return {| ok := true; body := Some v |} →
        getJobStatus env fetch jobId = Return v)
  ∧ ((∀ o, pollStatus = Some o → has_JobStatus o = true) →
     (∀ o, wsStatus = Some o → has_JobStatus o = true) →
     is_Some pollStatus ∨ is_Some wsStatus →
     has_JobStatus (status pollStatus wsStatus) = true
     ∧ declared_shape (status pollStatus wsStatus)
     ∧ status pollStatus wsStatus !! "mode"
       = (spread wsStatus ∪ spread pollStatus) !! "mode").
Proof.
  split.
  - intros v Hfetch. unfold getJobStatus. rewrite Hfetch. reflexivity.
  - intros Hpoll Hws Hsome.
    pose proof (status_has_JobStatus pollStatus wsStatus Hpoll Hws Hsome) as Hshape.
    split; [exact Hshape|]. split; [apply has_JobStatus_inv, Hshape|].
    apply status_other, not_overridden; discriminate.
Qed.

Lemma status_contract_kept_witness :
  has_JobStatus (status (Some documented_status) None) = true.
Proof.
  destruct (status_contract_kept {| NEXT_PUBLIC_API_URL := None |}
              (λ _, Throw NetworkError) "uuid" (Some documented_status) None)
    as (_ & Hkept).
  destruct Hkept as (Hshape & _).
  - intros o [= <-]. vm_compute. reflexivity.
  - intros o [=].
  - left. eexists. reflexivity.
  - exact Hshape.
Defined.

End ContractFacts.
